(** * Payment reconciliation core: ledger, reconciliation step, gateway
      status decoding and callback signatures

    A shallow embedding of
      - [services/repository.py]   (the payment ledger, SQLite tables, and
        the transaction state of its connection),
      - [utils/payment_checker.py] (the reconciliation step),
      - [payments/lolz_payment.py], [payments/xrocet_payment.py],
        [payments/crystalpay_payment.py], [payments/cryptobot_payment.py]
        (status decoding),
      - [payments/robokassa.py]    (signature validator, payment URL and
        callback paths),
      - [handlers/user/profile.py], [main.py] (cancelling a payment,
        enabling gateways),
    followed by the properties proved about them.

    The methods of the ledger are given twice.  [Repository] and
    [PaymentChecker] describe each method by the rows it reads and writes
    on a connection without an open transaction; [Connection] adds the
    transaction state, with which a settlement can raise at its [BEGIN]. *)

From stdpp Require Import strings list sorting pretty.
From Stdlib Require Import ZArith Ascii.

Local Open Scope Z_scope.

Set Warnings "-register-all".

(** ** Amounts of money

    The [REAL] columns [balance], [amount], [fee_amount] and [total_amount]
    hold Python floats and SQLite adds them with [balance + ?].  The ledger
    is written over an arbitrary carrier with its addition, so that every
    statement below holds for IEEE doubles as well as for exact arithmetic;
    no law of the addition is assumed unless a statement says so. *)

Class Money (M : Type) := madd : M → M → M.

#[export] Instance Z_money : Money Z := Z.add.

(** ** The ledger: [services/repository.py] over the schema of [database.py] *)

Module Repository.
Section Ledger.
Context {M : Type} `{Money M}.

(** A row of table [users] (the columns the payment methods read or
    write, and the ones that identify the user). *)
Record user := User {
  telegram_id : Z;
  username : string;
  balance : M;
  is_blocked : bool
}.

(** A row of table [payments]. *)
Record payment := Payment {
  user_id : Z;
  payment_method : string;
  amount : M;
  fee_amount : M;
  total_amount : M;
  invoice_id : string;
  payload_id : option string;
  crypto_asset : option string;
  status : string;
  message_id : option Z;
  chat_id : option Z;
  created_at : Z;
  expires_at : Z
}.

(** The database: both tables, rows in storage order. *)
Record DB := Db {
  users : list user;
  payments : list payment
}.

Definition set_status (st : string) (p : payment) : payment :=
  Payment (user_id p) (payment_method p) (amount p) (fee_amount p)
          (total_amount p) (invoice_id p) (payload_id p) (crypto_asset p)
          st (message_id p) (chat_id p) (created_at p) (expires_at p).

Definition add_balance (a : M) (u : user) : user :=
  User (telegram_id u) (username u) (madd (balance u) a) (is_blocked u).

(** [SELECT * FROM users WHERE telegram_id = ?], [fetchone]. *)
Definition get_user (uid : Z) (db : DB) : option user :=
  find (λ u, bool_decide (telegram_id u = uid)) (users db).

(** [SELECT * FROM payments WHERE invoice_id = ?], [fetchone]. *)
Definition get_payment_by_invoice_id (inv : string) (db : DB) : option payment :=
  find (λ p, bool_decide (invoice_id p = inv)) (payments db).

(** [SELECT * FROM payments WHERE status = 'pending' AND
    expires_at > CURRENT_TIMESTAMP]; [now] is the value of
    [CURRENT_TIMESTAMP]. *)
Definition get_pending_payments (now : Z) (db : DB) : list payment :=
  filter (λ p, status p = "pending" ∧ now < expires_at p) (payments db).

(** The [WHERE] clause of [update_payment_status]. *)
Definition status_differs (inv st : string) (p : payment) : bool :=
  bool_decide (invoice_id p = inv ∧ status p ≠ st).

(** [UPDATE payments SET status = ? WHERE invoice_id = ? AND status != ?];
    the result is [cursor.rowcount > 0]. *)
Definition update_payment_status (inv st : string) (db : DB) : DB * bool :=
  let rowcount := length (List.filter (status_differs inv st) (payments db)) in
  (Db (users db)
      (map (λ p, if status_differs inv st p then set_status st p else p)
           (payments db)),
   bool_decide (0 < rowcount)%nat).

(** The [WHERE] clause of the [SELECT] in [process_successful_payment]. *)
Definition is_pending (inv : string) (p : payment) : bool :=
  bool_decide (invoice_id p = inv ∧ status p = "pending").

(** The rows [process_successful_payment] reads and writes once its
    [BEGIN] has succeeded, that is on a connection without an open
    transaction: select the pending row, and if there is one mark the
    invoice paid and add [payment["amount"]] to the balance of
    [payment["user_id"]]; the row read by the [SELECT] is returned.  The
    method with the transaction state of the connection, on which its
    [BEGIN] can raise, is [Connection.process_successful_payment] below. *)
Definition process_successful_payment (inv : string) (db : DB)
  : DB * option payment :=
  match find (is_pending inv) (payments db) with
  | None => (db, None)
  | Some payment =>
      (Db (map (λ u, if bool_decide (telegram_id u = user_id payment)
                     then add_balance (amount payment) u else u)
               (users db))
          (map (λ p, if bool_decide (invoice_id p = inv)
                     then set_status "paid" p else p)
               (payments db)),
       Some payment)
  end.
End Ledger.
Arguments user : clear implicits.
Arguments payment : clear implicits.
Arguments DB : clear implicits.
End Repository.

(** ** Python values

    A [str] is kept as its UTF-8 bytes: [str.encode()] is then the identity,
    and comparing byte strings lexicographically is comparing by code point,
    which is the order [sorted] uses on strings. *)

Module Py.
(** [str(x)].  Instances are given for [str] itself and for [int]; the
    rendering of a [float] (its shortest round-trip [repr]) is left to the
    instance, and the statements below hold for any instance. *)
Class Str (A : Type) := str : A → string.
#[export] Instance str_str : Str string := λ s, s.
#[export] Instance str_int : Str Z := pretty.

(** [s.lower()], exact on ASCII text.  A hex digest is ASCII; a string
    with other characters has none that lowers to a hex digit, so it
    differs from a digest before and after lowering, here as in Python. *)
Definition lower_ascii (c : ascii) : ascii :=
  let n := nat_of_ascii c in
  if bool_decide (65 ≤ n ≤ 90)%nat then ascii_of_nat (n + 32) else c.

Fixpoint lower (s : string) : string :=
  match s with
  | EmptyString => EmptyString
  | String c r => String (lower_ascii c) (lower r)
  end.

(** [sep.join(parts)]. *)
Fixpoint join (sep : string) (parts : list string) : string :=
  match parts with
  | [] => ""
  | [x] => x
  | x :: rest => x +:+ sep +:+ join sep rest
  end.

(** Truthiness of an optional string ([None] and [""] are falsy). *)
Definition truthy_str (o : option string) : bool :=
  match o with
  | Some s => negb (bool_decide (s = ""))
  | None => false
  end.

(** A [dict] with string keys, as its items in insertion order (the
    keys of a dict are pairwise distinct). *)
Definition dict (V : Type) : Type := list (string * V).

Definition keys {V} (d : dict V) : list string := d.*1.

(** [d[key]], for a key of the dict. *)
Definition getitem {V} (d : dict V) (key : string) : option V :=
  snd <$> find (λ kv, bool_decide (kv.1 = key)) d.

(** [sorted(keys)]: on pairwise distinct keys the only ascending
    arrangement, which is what any sorting algorithm returns. *)
Definition sorted (l : list string) : list string := merge_sort String.le l.

(** An optional dict is well formed when its keys are pairwise distinct. *)
Definition distinct_keys {V} (o : option (dict V)) : Prop :=
match o with
| Some d => NoDup (keys d)
| None => True
end.
End Py.

(** ** [hashlib.md5]: the MD5 digest of RFC 1321 over 32-bit words kept in [Z] *)

Module MD5.
Definition w32 (x : Z) : Z := x mod 2^32.

Definition rotl (x c : Z) : Z :=
  w32 (Z.lor (Z.shiftl x c) (Z.shiftr x (32 - c))).

Definition K : list Z :=
  [ 0xd76aa478; 0xe8c7b756; 0x242070db; 0xc1bdceee;
    0xf57c0faf; 0x4787c62a; 0xa8304613; 0xfd469501;
    0x698098d8; 0x8b44f7af; 0xffff5bb1; 0x895cd7be;
    0x6b901122; 0xfd987193; 0xa679438e; 0x49b40821;
    0xf61e2562; 0xc040b340; 0x265e5a51; 0xe9b6c7aa;
    0xd62f105d; 0x02441453; 0xd8a1e681; 0xe7d3fbc8;
    0x21e1cde6; 0xc33707d6; 0xf4d50d87; 0x455a14ed;
    0xa9e3e905; 0xfcefa3f8; 0x676f02d9; 0x8d2a4c8a;
    0xfffa3942; 0x8771f681; 0x6d9d6122; 0xfde5380c;
    0xa4beea44; 0x4bdecfa9; 0xf6bb4b60; 0xbebfbc70;
    0x289b7ec6; 0xeaa127fa; 0xd4ef3085; 0x04881d05;
    0xd9d4d039; 0xe6db99e5; 0x1fa27cf8; 0xc4ac5665;
    0xf4292244; 0x432aff97; 0xab9423a7; 0xfc93a039;
    0x655b59c3; 0x8f0ccc92; 0xffeff47d; 0x85845dd1;
    0x6fa87e4f; 0xfe2ce6e0; 0xa3014314; 0x4e0811a1;
    0xf7537e82; 0xbd3af235; 0x2ad7d2bb; 0xeb86d391 ].

Definition shifts : list Z :=
  [ 7; 12; 17; 22; 7; 12; 17; 22; 7; 12; 17; 22; 7; 12; 17; 22;
    5; 9; 14; 20; 5; 9; 14; 20; 5; 9; 14; 20; 5; 9; 14; 20;
    4; 11; 16; 23; 4; 11; 16; 23; 4; 11; 16; 23; 4; 11; 16; 23;
    6; 10; 15; 21; 6; 10; 15; 21; 6; 10; 15; 21; 6; 10; 15; 21 ].

Definition nthZ (l : list Z) (i : Z) : Z := nth (Z.to_nat i) l 0.

Definition lnot32 (x : Z) : Z := Z.lxor x 0xffffffff.

(** The round function and the message-word index of step [i]. *)
Definition mix (i b c d : Z) : Z * Z :=
  if i <? 16 then (Z.lor (Z.land b c) (Z.land (lnot32 b) d), i)
  else if i <? 32 then
    (Z.lor (Z.land d b) (Z.land (lnot32 d) c), (5 * i + 1) mod 16)
  else if i <? 48 then (Z.lxor (Z.lxor b c) d, (3 * i + 5) mod 16)
  else (Z.lxor c (Z.lor b (lnot32 d)), (7 * i) mod 16).

Definition state : Type := Z * Z * Z * Z.

Definition step (m : list Z) (st : state) (i : Z) : state :=
  let '(a, b, c, d) := st in
  let '(f, g) := mix i b c d in
  let f' := w32 (f + a + nthZ K i + nthZ m g) in
  (d, w32 (b + rotl f' (nthZ shifts i)), b, c).

Fixpoint le_word (bs : list Z) : Z :=
  match bs with
  | [] => 0
  | b :: r => b + 256 * le_word r
  end.

Fixpoint words (n : nat) (bs : list Z) : list Z :=
  match n with
  | O => []
  | S n' => le_word (take 4 bs) :: words n' (drop 4 bs)
  end.

Definition block (st : state) (chunk : list Z) : state :=
  let m := words 16 chunk in
  let '(a0, b0, c0, d0) := st in
  let '(a, b, c, d) := fold_left (step m) (Z.of_nat <$> seq 0 64) st in
  (w32 (a0 + a), w32 (b0 + b), w32 (c0 + c), w32 (d0 + d)).

Fixpoint blocks (n : nat) (st : state) (bs : list Z) : state :=
  match n with
  | O => st
  | S n' => blocks n' (block st (take 64 bs)) (drop 64 bs)
  end.

Fixpoint le_bytes (n : nat) (x : Z) : list Z :=
  match n with
  | O => []
  | S n' => x mod 256 :: le_bytes n' (x / 256)
  end.

Definition pad (msg : list Z) : list Z :=
  let len := Z.of_nat (length msg) in
  msg ++ [0x80] ++ replicate (Z.to_nat ((55 - len) mod 64)) 0
      ++ le_bytes 8 ((8 * len) mod 2^64).

Definition init : state := (0x67452301, 0xefcdab89, 0x98badcfe, 0x10325476).

Definition digest (msg : list Z) : list Z :=
  let p := pad msg in
  let '(a, b, c, d) := blocks (length p / 64) init p in
  le_bytes 4 a ++ le_bytes 4 b ++ le_bytes 4 c ++ le_bytes 4 d.

Definition hex_digit (n : Z) : ascii :=
  ascii_of_nat (Z.to_nat (if n <? 10 then 48 + n else 87 + n)).

Fixpoint hex (bs : list Z) : string :=
  match bs with
  | [] => EmptyString
  | b :: r => String (hex_digit (b / 16)) (String (hex_digit (b mod 16)) (hex r))
  end.

Fixpoint encode (s : string) : list Z :=
  match s with
  | EmptyString => []
  | String c r => Z.of_nat (nat_of_ascii c) :: encode r
  end.

(** [hashlib.md5(s.encode()).hexdigest()]. *)
Definition hexdigest (s : string) : string := hex (digest (encode s)).
End MD5.

(** ** [payments/robokassa.py] *)

Module Robokassa.
Import Py.

(** [RobokassaConfig]: the fields the secrets are selected from. *)
Record RobokassaConfig := Config {
  merchant_login : string;
  password1 : string;
  password2 : string;
  test_password1 : option string;
  test_password2 : option string;
  use_sandbox : bool
}.

Definition get_password1 (c : RobokassaConfig) : string :=
  match test_password1 c with
  | Some t => if use_sandbox c && truthy_str (Some t) then t else password1 c
  | None => password1 c
  end.

Definition get_password2 (c : RobokassaConfig) : string :=
  match test_password2 c with
  | Some t => if use_sandbox c && truthy_str (Some t) then t else password2 c
  | None => password2 c
  end.

Section Signature.
Context {A V : Type} `{Str A, Str V}.

(** The values of [extra_params] in ascending key order; nothing for
    [None] and for the empty dict, both falsy in [if extra_params:]. *)
Definition extra_values (extra_params : option (dict V)) : list string :=
  match extra_params with
  | None | Some [] => []
  | Some d => omap (λ key, str <$> getitem d key) (sorted (keys d))
  end.

(** [signature_parts] at the point where it is joined. *)
Definition signature_parts (merchant_login : string) (amount : A)
    (invoice_id password : string) (extra_params : option (dict V))
  : list string :=
  [merchant_login; str amount; str invoice_id; password]
    ++ extra_values extra_params.

Definition signature_string (merchant_login : string) (amount : A)
    (invoice_id password : string) (extra_params : option (dict V))
  : string :=
  join ":" (signature_parts merchant_login amount invoice_id password
                            extra_params).

Definition calculate_signature (merchant_login : string) (amount : A)
    (invoice_id password : string) (extra_params : option (dict V))
  : string :=
  MD5.hexdigest (signature_string merchant_login amount invoice_id
                                  password extra_params).

Definition verify_callback_signature (merchant_login : string)
    (amount : A) (invoice_id signature password : string)
    (extra_params : option (dict V)) : bool :=
  let calculated_signature :=
    calculate_signature merchant_login amount invoice_id password
                        extra_params in
  bool_decide (lower calculated_signature = lower signature).

(** [RobokassaPaymentHandler], as functions of its [config]. *)
Definition verify_payment (config : RobokassaConfig)
    (merchant_login : string) (amount : A)
    (invoice_id signature : string) (extra_params : option (dict V))
  : bool :=
  verify_callback_signature merchant_login amount invoice_id signature
                            (get_password1 config) extra_params.

Definition verify_payment_secondary (config : RobokassaConfig)
    (merchant_login : string) (amount : A)
    (invoice_id signature : string) (extra_params : option (dict V))
  : bool :=
  verify_callback_signature merchant_login amount invoice_id signature
                            (get_password2 config) extra_params.

Definition process_success_callback (config : RobokassaConfig)
    (merchant_login : string) (amount : A)
    (invoice_id signature : string) (extra_params : option (dict V))
  : bool * string :=
  if negb (verify_payment config merchant_login amount invoice_id
                          signature extra_params)
  then (false, "Invalid signature")
  else (true, "OK" +:+ str invoice_id).

Definition process_fail_callback (config : RobokassaConfig)
    (merchant_login : string) (amount : A)
    (invoice_id signature : string) (extra_params : option (dict V))
  : bool * string :=
  if negb (verify_payment_secondary config merchant_login amount
                                    invoice_id signature extra_params)
  then (false, "Invalid signature")
  else (true, "FAIL").

Definition process_status_callback (config : RobokassaConfig)
    (merchant_login : string) (amount : A)
    (invoice_id signature : string) (extra_params : option (dict V))
  : bool * string :=
  if negb (verify_payment_secondary config merchant_login amount
                                    invoice_id signature extra_params)
  then (false, "Invalid signature")
  else (true, "OK" +:+ str invoice_id).
End Signature.
End Robokassa.

(** ** Provider responses *)

Module Http.
(** A decoded JSON body (numbers are integers here). *)
Inductive json :=
| JNull
| JBool (b : bool)
| JNum (n : Z)
| JStr (s : string)
| JArr (items : list json)
| JObj (entries : list (string * json)).

(** What awaiting one request and its body yields: an exception
    ([Raised]: connection error, timeout), or a response with its status
    code and, when [response.json()] succeeds, the decoded body. *)
Inductive outcome :=
| Raised
| Response (status : Z) (body : option json).

(** Truthiness of a decoded value. *)
Definition truthy (j : json) : bool :=
  match j with
  | JNull => false
  | JBool b => b
  | JNum n => negb (n =? 0)
  | JStr s => negb (bool_decide (s = ""))
  | JArr items => match items with [] => false | _ => true end
  | JObj entries => match entries with [] => false | _ => true end
  end.

(** [value == text] for a string literal [text]. *)
Definition eq_str (value : json) (text : string) : bool :=
  match value with
  | JStr s => bool_decide (s = text)
  | _ => false
  end.

Definition lookup_entry (key : string) (entries : list (string * json))
  : option json :=
  snd <$> find (λ kv, bool_decide (kv.1 = key)) entries.

(** [obj.get(key, dflt)]; [None] when [obj] is not a dict and the call
    raises [AttributeError]. *)
Definition get (obj : json) (key : string) (dflt : json) : option json :=
  match obj with
  | JObj entries => Some (default dflt (lookup_entry key entries))
  | _ => None
  end.

(** [obj[key]] for a string [key]; [None] when it raises ([KeyError] on a
    dict without the key, [TypeError] otherwise). *)
Definition subscript (obj : json) (key : string) : option json :=
  match obj with
  | JObj entries => lookup_entry key entries
  | _ => None
  end.

Definition is_substring (needle hay : string) : bool :=
  match String.index 0 needle hay with
  | Some _ => true
  | None => false
  end.

(** [key in obj] for a string [key]: a key of a dict, an element of a
    list, a substring of a string; [None] when it raises [TypeError]. *)
Definition contains (obj : json) (key : string) : option bool :=
  match obj with
  | JObj entries => Some (bool_decide (is_Some (lookup_entry key entries)))
  | JArr items => Some (existsb (λ x, eq_str x key) items)
  | JStr s => Some (is_substring key s)
  | _ => None
  end.
End Http.

(** ** Gateway adapters: decoding the provider's answer to a status query

    Each [check] is the adapter's method as a function of what its HTTP
    request yields.  A result dict is kept as [Success status] when it has
    [{"success": True, "status": status}] and as [Failure error] when it has
    [{"success": False, "error": ...}]; the informational keys of a success
    and the text of an error message are not kept, and reading the text of
    an error response for the log is taken to succeed. *)

Module Gateway.
Import Http.

Inductive error :=
| UnexpectedFormat
| InvoiceNotFound
| ApiStatus (status : Z)
| ApiError
| ConnectionError.

Inductive status_result :=
| Success (status : string)
| Failure (err : error).

(** [LolzPayment.check_payment_status]. *)
Definition lolz_check_payment_status (response : outcome) : status_result :=
  match response with
  | Raised => Failure ConnectionError
  | Response code body =>
      if code =? 200 then
        match body with
        | None => Failure ConnectionError
        | Some result =>
            match contains result "invoice" with
            | None => Failure ConnectionError
            | Some false => Failure UnexpectedFormat
            | Some true =>
                match subscript result "invoice" with
                | None => Failure ConnectionError
                | Some invoice_data =>
                    match get invoice_data "status" JNull with
                    | None => Failure ConnectionError
                    | Some status =>
                        Success (if eq_str status "paid"
                                 then "paid" else "pending")
                    end
                end
            end
        end
      else if code =? 404 then Failure InvoiceNotFound
      else Failure (ApiStatus code)
  end.

(** [XRocetPayment.check_payment]. *)
Definition xrocet_check_payment (response : outcome) : string :=
  match response with
  | Raised => "pending"
  | Response code body =>
      if code =? 200 then
        match body with
        | None => "pending"
        | Some result =>
            match get result "success" JNull with
            | None => "pending"
            | Some ok =>
                if truthy ok then
                  match subscript result "data" with
                  | None => "pending"
                  | Some invoice_data =>
                      match get invoice_data "status" (JStr "active"),
                            get invoice_data "payments" (JArr []) with
                      | Some status, Some payments =>
                          if truthy payments then "paid"
                          else if eq_str status "active" then "pending"
                          else "expired"
                      | _, _ => "pending"
                      end
                  end
                else "pending"
            end
        end
      else "pending"
  end.

(** [CrystalPayPayment.check_payment_status]. *)
Definition crystalpay_check_payment_status (response : outcome)
  : status_result :=
  match response with
  | Raised => Failure ConnectionError
  | Response code body =>
      if code =? 200 then
        match body with
        | None => Failure ConnectionError
        | Some result =>
            match get result "error" JNull with
            | None => Failure ConnectionError
            | Some err =>
                if negb (truthy err) then
                  match get result "state" (JStr "notpayed") with
                  | None => Failure ConnectionError
                  | Some state =>
                      Success (if eq_str state "payed"
                               then "paid" else "pending")
                  end
                else Failure ApiError
            end
        end
      else Failure (ApiStatus code)
  end.

(** The answers of the providers, by the id asked for. *)
Record network := Network {
  lolz_invoice : string → outcome;
  xrocet_invoice : string → outcome;
  crystalpay_info : string → outcome
}.

(** [PaymentChecker.payment_handlers]: what awaiting each handler's check
    returns for an id.  [CryptoBotPayment.check_payment_status] is taken
    here as it answers; its decoding is [CryptoBot.check_payment_status]
    below. *)
Record handlers := Handlers {
  lolz : string → status_result;
  cryptobot : string → status_result;
  xrocet : string → string;
  crystalpay : string → status_result
}.

Definition handlers_on (net : network) (cryptobot : string → status_result)
  : handlers :=
  Handlers (λ id, lolz_check_payment_status (lolz_invoice net id))
           cryptobot
           (λ id, xrocet_check_payment (xrocet_invoice net id))
           (λ id, crystalpay_check_payment_status (crystalpay_info net id)).
End Gateway.

(** ** The reconciliation step: [utils/payment_checker.py] *)

Module PaymentChecker.
Import Py Repository Gateway.

Section Checker.
Context {M : Type} `{Money M}.

(** What a step does besides changing the ledger, in order: the status
    checks awaited from adapters and the notifications sent. *)
Inductive event :=
| Checked (payment_method check_id : string) (result : status_result)
| NotifiedExpired (user_id : Z) (invoice_id : string)
| NotifiedSuccess (user_id : Z) (amount : M) (invoice_id : string)
| NotifiedAdmin (processed_payment : payment M).

(** [self.payment_handlers.get(payment_method)] and the call made on the
    handler: [check_payment] wrapped in a success for xrocet,
    [check_payment_status] for the others. *)
Definition check_status (h : handlers) (payment_method check_id : string)
  : option status_result :=
  if bool_decide (payment_method = "lolz") then Some (lolz h check_id)
  else if bool_decide (payment_method = "cryptobot")
       then Some (cryptobot h check_id)
  else if bool_decide (payment_method = "xrocet")
       then Some (Success (xrocet h check_id))
  else if bool_decide (payment_method = "crystalpay")
       then Some (crystalpay h check_id)
  else None.

(** [process_single_payment]; [now] is [datetime.now()]. *)
Definition process_single_payment (h : handlers) (now : Z)
    (payment : payment M) (db : DB M) : DB M * list event :=
  let payment_method := payment_method payment in
  let invoice_id := invoice_id payment in
  let payload_id := payload_id payment in
  if bool_decide (expires_at payment < now) then
    let '(db', changed) := update_payment_status invoice_id "expired" db in
    (db', if changed then [NotifiedExpired (user_id payment) invoice_id]
          else [])
  else
    let check_id :=
      if bool_decide (payment_method = "cryptobot") && truthy_str payload_id
      then default invoice_id payload_id else invoice_id in
    match check_status h payment_method check_id with
    | None => (db, [])
    | Some status_result =>
        match status_result with
        | Failure _ => (db, [Checked payment_method check_id status_result])
        | Success status =>
            if bool_decide (status = "paid") then
              match process_successful_payment invoice_id db with
              | (db', Some processed_payment) =>
                  (db', [Checked payment_method check_id status_result;
                         NotifiedSuccess (user_id processed_payment)
                                         (amount processed_payment) invoice_id;
                         NotifiedAdmin processed_payment])
              | (db', None) =>
                  (db', [Checked payment_method check_id status_result])
              end
            else (db, [Checked payment_method check_id status_result])
        end
    end.

(** [check_pending_payments]: one cycle over the rows listed at its start.
    [now_db] is [CURRENT_TIMESTAMP] of the listing and [now_at payment] the
    clock read when that payment is processed. *)
Definition check_pending_payments (h : handlers) (enabled_systems : string → bool)
    (now_db : Z) (now_at : payment M → Z) (db : DB M) : DB M * list event :=
  foldl (λ acc payment,
           if enabled_systems (payment_method payment) then
             let '(db', events) :=
               process_single_payment h (now_at payment) payment acc.1 in
             (db', acc.2 ++ events)
           else acc)
        (db, []) (get_pending_payments now_db db).
End Checker.
Arguments event : clear implicits.
End PaymentChecker.

(** The specification's phrase "the values of [extra_params] taken in
    ascending key order", written from its words: sort the entries by key,
    then take each entry's rendered value. *)

Module SpecWords.
Import Py.

Definition by_key {V} : relation (string * V) := λ x y, String.le x.1 y.1.

Definition values_in_key_order {V} `{Str V}
    (extra_params : option (dict V)) : list string :=
  match extra_params with
  | None => []
  | Some d => (λ kv, str kv.2) <$> merge_sort by_key d
  end.

(** "The change is detected unless the digests collide": the changed
    inputs sign another string than the original ones, and the original
    signature is verified against the changed inputs exactly when the two
    strings have the same MD5 digest. *)
Definition detected_unless_collision (original changed : string)
    (verified : bool) : Prop :=
  changed ≠ original ∧
  (verified = true ↔ MD5.hexdigest changed = MD5.hexdigest original).
End SpecWords.

(** ** Sample data

    The scenario of the specification: an invoice of 100 with a fee of 5
    (total 105), owned by user 7 whose balance is 50, in exact integer
    arithmetic. *)

Module Sample.
Import Repository.

Definition alice : user Z := User 7 "alice" 50 false.
Definition bob : user Z := User 8 "bob" 20 false.

Definition invoice (st : string) : payment Z :=
  Payment 7 "lolz" 100 5 105 "INV-1" None None st None None 1000 1900.

Definition ledger (st : string) : DB Z := Db [alice; bob] [invoice st].

(** Adapters that all report the invoice paid. *)
Definition all_paid : Gateway.handlers :=
Gateway.Handlers (λ _, Gateway.Success "paid") (λ _, Gateway.Success "paid")
                 (λ _, "paid") (λ _, Gateway.Success "paid").

(** A network on which every request raises. *)
Definition network_down : Gateway.network :=
Gateway.Network (λ _, Http.Raised) (λ _, Http.Raised) (λ _, Http.Raised).

End Sample.

(** ** The rest of the ledger: users and payment rows

    [zero] is the [0.0] that [balance REAL DEFAULT 0.0] gives a new user and
    [msub] the subtraction of [balance - ?]. *)

Module RepositoryRest.
Import Repository.

Section Rest.
Context {M : Type} `{Money M}.

(** [get_or_create_user]: the row found, or the row inserted with the
    defaults of the schema ([balance] 0.0, [is_blocked] 0). *)
Definition get_or_create_user (zero : M) (telegram_id : Z) (username : string)
    (db : DB M) : DB M * user M :=
  match get_user telegram_id db with
  | Some user => (db, user)
  | None =>
      let user := User telegram_id username zero false in
      (Db (users db ++ [user]) (payments db), user)
  end.

(** [update_user_block_status]. *)
Definition update_user_block_status (user_id : Z) (is_blocked : bool)
    (db : DB M) : DB M :=
  Db (map (λ u, if bool_decide (Repository.telegram_id u = user_id)
                then User (Repository.telegram_id u) (Repository.username u)
                          (balance u) is_blocked
                else u)
          (users db))
     (payments db).

(** [is_user_blocked]: [row and row['is_blocked'] == 1], as its truth
    value. *)
Definition is_user_blocked (user_id : Z) (db : DB M) : bool :=
  match get_user user_id db with
  | Some row => Repository.is_blocked row
  | None => false
  end.

(** [update_user_balance]: [balance + ?] for the operation ['add'] and
    [balance - ?] for every other operation. *)
Definition update_user_balance (msub : M → M → M) (user_id : Z) (amount : M)
    (operation : string) (db : DB M) : DB M :=
  let op := if bool_decide (operation = "add") then madd else msub in
  Db (map (λ u, if bool_decide (Repository.telegram_id u = user_id)
                then User (Repository.telegram_id u) (Repository.username u)
                          (op (balance u) amount) (Repository.is_blocked u)
                else u)
          (users db))
     (payments db).

(** [create_payment]: the [INSERT] into [payments], with [status] and
    [created_at] left to their defaults (['pending'] and
    [CURRENT_TIMESTAMP], here [now]).  [invoice_id] is [UNIQUE]: inserting
    an id that is already there raises, which is [None]. *)
Definition create_payment (now : Z) (user_id : Z) (payment_method : string)
    (amount fee_amount total_amount : M) (invoice_id : string)
    (expires_at : Z) (crypto_asset : option string)
    (message_id chat_id : option Z) (payload_id : option string)
    (db : DB M) : option (DB M) :=
  if existsb (λ p, bool_decide (Repository.invoice_id p = invoice_id))
             (payments db)
  then None
  else Some (Db (users db)
                (payments db ++
                 [Payment user_id payment_method amount fee_amount
                          total_amount invoice_id payload_id crypto_asset
                          "pending" message_id chat_id now expires_at])).

(** The [WHERE] clause of [get_user_active_payment]. *)
Definition is_active (now : Z) (user_id : Z) (p : payment M) : bool :=
  bool_decide (Repository.user_id p = user_id ∧ status p = "pending"
               ∧ now < Repository.expires_at p).

(** [ORDER BY created_at DESC LIMIT 1] over the selected rows.  Between
    two rows with the same [created_at] SQLite may return either; the
    earlier row is taken here. *)
Definition latest (best : option (payment M)) (p : payment M)
  : option (payment M) :=
  match best with
  | None => Some p
  | Some b => if created_at b <? created_at p then Some p else Some b
  end.

(** [get_user_active_payment]; [now] is [CURRENT_TIMESTAMP]. *)
Definition get_user_active_payment (now : Z) (user_id : Z) (db : DB M)
  : option (payment M) :=
  foldl latest None (List.filter (is_active now user_id) (payments db)).
End Rest.

End RepositoryRest.

(** What no operation of the ledger or of the reconciliation changes: the
    rows of both tables, in their order, up to the status of a payment and
    the balance of a user. *)

Module Frame.
Import Repository.

Definition fixed_of_payment {M} (p : payment M) : payment M :=
  set_status "" p.

Definition fixed_of_user {M} (u : user M) : Z * string * bool :=
  (telegram_id u, username u, is_blocked u).

Definition same_rows {M} (db db' : DB M) : Prop :=
  fixed_of_payment <$> payments db' = fixed_of_payment <$> payments db ∧
  fixed_of_user <$> users db' = fixed_of_user <$> users db.
End Frame.

(** ** Names for two conditions of the reconciliation step *)

Module Reconciliation.
Import Py Repository Http Gateway.

(** The id a payment's gateway is asked about ([check_id] in
    [process_single_payment]). *)
Definition correlation_key {M} (payment : payment M) : string :=
  if bool_decide (payment_method payment = "cryptobot")
     && truthy_str (payload_id payment)
  then default (invoice_id payment) (payload_id payment)
  else invoice_id payment.

(** A request that did not come back with HTTP 200. *)
Definition unanswered (response : outcome) : Prop :=
  match response with
  | Raised => True
  | Response code _ => code ≠ 200
  end.
End Reconciliation.

(** ** The rest of [payments/robokassa.py]: payment URL and callback
       handler *)

Module RobokassaRest.
Import Py Robokassa.

(** What the code needs of a [float] besides [str]: [float(text)] ([None]
    when it raises [ValueError]), [float(0)], and the test [amount <= 0]. *)
Class PyFloat (A : Type) := {
  float_of_str : string → option A;
  float_zero : A;
  nonpositive : A → bool
}.

(** [d[key] = value]: the value is replaced in place when the key is
    there, the entry is appended otherwise. *)
Fixpoint setitem {V} (d : dict V) (key : string) (value : V) : dict V :=
  match d with
  | [] => [(key, value)]
  | (k, v) :: rest =>
      if bool_decide (k = key) then (k, value) :: rest
      else (k, v) :: setitem rest key value
  end.

(** [urllib.parse.quote_plus]: letters, digits and [_.-~] are kept, a
    space becomes [+], every other byte [%XX] in upper-case hex. *)
Definition unreserved (c : ascii) : bool :=
  let n := nat_of_ascii c in
  bool_decide ((65 ≤ n ≤ 90) ∨ (97 ≤ n ≤ 122) ∨ (48 ≤ n ≤ 57)
               ∨ n = 95 ∨ n = 46 ∨ n = 45 ∨ n = 126)%nat.

Definition hex_upper (n : nat) : ascii :=
  ascii_of_nat (if (n <? 10)%nat then 48 + n else 55 + n).

Fixpoint quote_plus (s : string) : string :=
  match s with
  | EmptyString => EmptyString
  | String c r =>
      let n := nat_of_ascii c in
      if unreserved c then String c (quote_plus r)
      else if (n =? 32)%nat then String "+" (quote_plus r)
      else String "%" (String (hex_upper (n / 16))
                         (String (hex_upper (n mod 16)) (quote_plus r)))
  end.

(** [urllib.parse.urlencode] of a dict whose values are rendered already. *)
Definition urlencode (query : dict string) : string :=
  join "&" ((λ kv, quote_plus kv.1 +:+ "=" +:+ quote_plus kv.2) <$> query).

(** [RobokassaConfig.get_environment_url]. *)
Definition get_environment_url (config : RobokassaConfig) : string :=
  if use_sandbox config
  then "https://test.robokassa.ru/Merchant/PaymentMethods/"
  else "https://auth.robokassa.ru/Merchant/PaymentMethods/".

(** [s[n:]]. *)
Fixpoint string_drop (n : nat) (s : string) : string :=
  match n, s with
  | O, _ => s
  | S n', String _ r => string_drop n' r
  | S _, EmptyString => EmptyString
  end.

Section Handler.
Context {A : Type} `{Str A, PyFloat A}.

(** [url_params] of [get_payment_url] when it is encoded, each value as
    [urlencode] renders it. *)
Definition url_params (config : RobokassaConfig) (amount : A)
    (invoice_id description currency : string) (email : option string)
    (is_test : Z) (extra_params : option (dict string)) : dict string :=
  let signature_params :=
    match extra_params with
    | Some (kv :: rest) => kv :: rest
    | _ => []
    end in
  let signature :=
    calculate_signature (merchant_login config) amount invoice_id
                        (get_password1 config) (Some signature_params) in
  let base :=
    [("MerchantLogin", merchant_login config);
     ("Sum", str amount);
     ("InvId", invoice_id);
     ("Description", description);
     ("SignatureValue", signature);
     ("IsTest", str is_test)] in
  let with_currency :=
    if bool_decide (currency ≠ "RUB") then setitem base "Currency" currency
    else base in
  let with_email :=
    if truthy_str email then setitem with_currency "Email" (default "" email)
    else with_currency in
  foldl (λ params kv, setitem params ("Shp_" +:+ kv.1) kv.2)
        with_email signature_params.

(** [get_payment_url]; [None] when it raises [ValueError]. *)
Definition get_payment_url (config : RobokassaConfig) (amount : A)
    (invoice_id description currency : string) (email : option string)
    (is_test : Z) (extra_params : option (dict string)) : option string :=
  if nonpositive amount then None
  else if bool_decide (invoice_id = "") then None
  else Some (get_environment_url config +:+ "?"
             +:+ urlencode (url_params config amount invoice_id description
                                       currency email is_test extra_params)).

(** The dict returned by [extract_callback_data]. *)
Record callback_data := CallbackData {
  cb_merchant_login : option string;
  cb_amount : A;
  cb_invoice_id : option string;
  cb_signature : option string;
  cb_extra_params : dict string
}.

(** [{k[4:]: v for k, v in request_data.items() if k.startswith('Shp_')}]
    (the keys of [request_data] are pairwise distinct, and so are the
    stripped ones). *)
Definition shp_params (request_data : dict string) : dict string :=
  (λ kv, (string_drop 4 kv.1, kv.2))
    <$> List.filter (λ kv, String.prefix "Shp_" kv.1) request_data.

(** [extract_callback_data]; [None] when [float] raises. *)
Definition extract_callback_data (request_data : dict string)
  : option callback_data :=
  let amount :=
    match getitem request_data "Sum" with
    | Some text => float_of_str text
    | None => Some float_zero
    end in
  match amount with
  | None => None
  | Some amount =>
      Some (CallbackData (getitem request_data "MerchantLogin")
                         amount
                         (getitem request_data "InvId")
                         (getitem request_data "SignatureValue")
                         (shp_params request_data))
  end.

(** [str(invoice_id)] of an id that may be [None]. *)
Definition str_optional (o : option string) : string := default "None" o.

(** The three handlers; [None] when an exception escapes: [float] rejects
    the sum, the merchant login is [None] (it cannot be joined into the
    signed string), or the signature is [None] (it has no [lower]). *)
Definition handle_with
    (process : RobokassaConfig → string → A → string → string →
               option (dict string) → bool * string)
    (config : RobokassaConfig) (request_data : dict string)
  : option (bool * string) :=
  match extract_callback_data request_data with
  | None => None
  | Some data =>
      match cb_merchant_login data, cb_signature data with
      | Some merchant_login, Some signature =>
          Some (process config merchant_login (cb_amount data)
                        (str_optional (cb_invoice_id data)) signature
                        (Some (cb_extra_params data)))
      | _, _ => None
      end
  end.

Definition handle_success_callback := handle_with process_success_callback.
Definition handle_fail_callback := handle_with process_fail_callback.
Definition handle_status_callback := handle_with process_status_callback.
End Handler.
Arguments callback_data : clear implicits.
End RobokassaRest.

(** ** Callers: cancelling a payment, enabling gateways *)

Module Profile.
Import Repository.

(** [s.split(sep)] for a separator of one character. *)
Fixpoint split (sep : ascii) (s : string) : list string :=
  match s with
  | EmptyString => [EmptyString]
  | String c r =>
      if bool_decide (c = sep) then EmptyString :: split sep r
      else match split sep r with
           | first :: others => String c first :: others
           | [] => [String c EmptyString]
           end
  end.

(** [cancel_payment] of [handlers/user/profile.py] on the ledger;
    [callback_data] is the button's data.  [None] when [split(...)[2]]
    raises [IndexError]. *)
Definition cancel_payment {M} (callback_data : string) (db : DB M)
  : option (DB M) :=
  match split "_" callback_data !! 2%nat with
  | Some invoice_id => Some (update_payment_status invoice_id "cancelled" db).1
  | None => None
  end.

(** The [callback_data] that [get_payment_keyboard] gives the cancel
    button. *)
Definition cancel_button (invoice_id : string) : string :=
  "cancel_payment_" +:+ invoice_id.
End Profile.

Module Main.
Import Py.

(** The credentials [check_payment_systems] looks at; each is [None] when
    its environment variable is not set. *)
Record credentials := Credentials {
  lolz_api_key : option string;
  lolz_user_id : option string;
  cryptobot_api_key : option string;
  xrocet_api_key : option string;
  crystalpay_login : option string;
  crystalpay_secret : option string
}.

(** [check_payment_systems]: the dict of enabled systems. *)
Definition check_payment_systems (config : credentials) : dict bool :=
  (if truthy_str (lolz_api_key config) && truthy_str (lolz_user_id config)
   then [("lolz", true)] else [])
  ++ (if truthy_str (cryptobot_api_key config)
      then [("cryptobot", true)] else [])
  ++ (if truthy_str (xrocet_api_key config) then [("xrocet", true)] else [])
  ++ (if truthy_str (crystalpay_login config)
         && truthy_str (crystalpay_secret config)
      then [("crystalpay", true)] else []).

(** [enabled_systems.get(payment_method)], as its truth value. *)
Definition enabled (enabled_systems : dict bool) (payment_method : string)
  : bool :=
  default false (getitem enabled_systems payment_method).
End Main.

(** ** Python's [float]

    The amounts of the examples are Python floats: IEEE 754 doubles, each
    finite one kept as its sign and the odd mantissa and exponent of its
    value ([mantissa * 2 ^ exponent]; zero has mantissa and exponent 0),
    with [float(text)] (round to nearest, ties to even), [float] of an
    [int], and [repr], which is also [str]: the shortest decimal text that
    reads back as the same double.  The tables of white space and decimal
    digits beyond ASCII are those of Unicode 14.0. *)

Module SampleFloat.
Import Py RobokassaRest.

Inductive float :=
| Finite (negative : bool) (mantissa exponent : Z)
| Infinity (negative : bool)
| NaN.

(** [floor (log2 (p / q))] for positive [p] and [q]. *)
Definition floor_log2 (p q : Z) : Z :=
  let k := Z.log2 p - Z.log2 q in
  if (if 0 <=? k then q * 2 ^ k <=? p else q <=? p * 2 ^ (- k))
  then k else k - 1.

(** The number of decimal digits of a positive integer. *)
Definition decimal_length (n : Z) : Z := Z.of_nat (String.length (pretty n)).

(** [floor (log10 (p / q))] for positive [p] and [q]. *)
Definition floor_log10 (p q : Z) : Z :=
  let k := decimal_length p - decimal_length q in
  if (if 0 <=? k then q * 10 ^ k <=? p else q <=? p * 10 ^ (- k))
  then k else k - 1.

(** The double nearest to [p / q] ([p >= 0], [q > 0]), ties to even. *)
Definition nearest (negative : bool) (p q : Z) : float :=
  if p =? 0 then Finite negative 0 0
  else
    let e := Z.max (floor_log2 p q - 52) (-1074) in
    let n := if 0 <=? e then p else p * 2 ^ (- e) in
    let d := if 0 <=? e then q * 2 ^ e else q in
    let quotient := n / d in
    let remainder := n mod d in
    let m :=
      if (d <? 2 * remainder) || ((d =? 2 * remainder) && Z.odd quotient)
      then quotient + 1 else quotient in
    if m =? 0 then Finite negative 0 0
    else if 1024 <=? Z.log2 m + e then Infinity negative
    else
      let low := Z.land m (- m) in
      Finite negative (m / low) (e + Z.log2 low).

(** The double nearest to [digits * 10 ^ exponent]. *)
Definition of_decimal (negative : bool) (digits exponent : Z) : float :=
  if digits =? 0 then Finite negative 0 0
  else if 310 <? decimal_length digits + exponent then Infinity negative
  else if decimal_length digits + exponent <? -330 then Finite negative 0 0
  else if 0 <=? exponent then nearest negative (digits * 10 ^ exponent) 1
  else nearest negative digits (10 ^ (- exponent)).

(** [float(n)] of an [int]. *)
Definition Whole (value : Z) : float :=
  nearest (value <? 0) (Z.abs value) 1.

(** *** Reading *)

Definition is_digit (c : ascii) : bool :=
  let n := nat_of_ascii c in (48 <=? n)%nat && (n <=? 57)%nat.

Definition digit_value (c : ascii) : Z := Z.of_nat (nat_of_ascii c) - 48.

Definition is_space (c : ascii) : bool :=
  let n := nat_of_ascii c in
  ((9 <=? n)%nat && (n <=? 13)%nat) || (n =? 32)%nat.

Fixpoint drop_spaces (s : list ascii) : list ascii :=
  match s with
  | c :: r => if is_space c then drop_spaces r else s
  | [] => []
  end.

Definition strip (s : list ascii) : list ascii :=
  rev (drop_spaces (rev (drop_spaces s))).

(** The check of underscores, which are then removed: one is allowed only
    between two digits. *)
Fixpoint without_underscores (previous : option ascii) (s : list ascii)
  : option (list ascii) :=
  match s with
  | [] => if bool_decide (previous = Some "_"%char) then None else Some []
  | c :: r =>
      if bool_decide (c = "_"%char) then
        match previous with
        | Some p => if is_digit p then without_underscores (Some c) r else None
        | None => None
        end
      else if bool_decide (previous = Some "_"%char) && negb (is_digit c)
      then None
      else cons c <$> without_underscores (Some c) r
  end.

(** Leading digits, as their number, their count, and the rest. *)
Fixpoint digits (value count : Z) (s : list ascii) : Z * Z * list ascii :=
  match s with
  | c :: r =>
      if is_digit c then digits (10 * value + digit_value c) (count + 1) r
      else (value, count, s)
  | [] => (value, count, [])
  end.

Definition lower_letter (c : ascii) : ascii :=
  let n := nat_of_ascii c in
  if (65 <=? n)%nat && (n <=? 90)%nat then ascii_of_nat (n + 32) else c.

(** The exponent part, when there is a well-formed one, and the rest. *)
Definition exponent_part (s : list ascii) : Z * list ascii :=
  match s with
  | e :: r =>
      if bool_decide (lower_letter e = "e"%char) then
        let '(negative, r') :=
          match r with
          | "-"%char :: r' => (true, r')
          | "+"%char :: r' => (false, r')
          | _ => (false, r)
          end in
        let '(value, count, rest) := digits 0 0 r' in
        if count =? 0 then (0, s)
        else (if negative then - value else value, rest)
      else (0, s)
  | [] => (0, [])
  end.

(** [float(text)] for a text of ASCII characters; [None] is [ValueError]. *)
Definition parse (text : list ascii) : option float :=
  match without_underscores None (strip text) with
  | None => None
  | Some s =>
      let '(negative, s) :=
        match s with
        | "-"%char :: r => (true, r)
        | "+"%char :: r => (false, r)
        | _ => (false, s)
        end in
      let word := String.string_of_list_ascii (lower_letter <$> s) in
      if bool_decide (word = "inf") || bool_decide (word = "infinity")
      then Some (Infinity negative)
      else if bool_decide (word = "nan") then Some NaN
      else
        let '(whole, whole_count, s) := digits 0 0 s in
        let '(all, fraction_count, s) :=
          match s with
          | "."%char :: r =>
              let '(all, count, rest) := digits whole 0 r in
              (all, count, rest)
          | _ => (whole, 0, s)
          end in
        if whole_count + fraction_count =? 0 then None
        else
          match exponent_part s with
          | (exponent, []) =>
              Some (of_decimal negative all (exponent - fraction_count))
          | _ => None
          end
  end.

(** *** Writing: [repr] *)

Fixpoint strip_zeros (reversed : list ascii) : list ascii :=
  match reversed with
  | "0"%char :: r => strip_zeros r
  | _ => reversed
  end.

(** The shortest decimal [c * 10 ^ s] with at most [n] digits that reads
    back as the double, nearest first. *)
Definition candidate (negative : bool) (m e : Z) (p q k : Z) (n : Z)
  : option (Z * Z) :=
  let s := k - n + 1 in
  let num := if 0 <=? s then p else p * 10 ^ (- s) in
  let den := if 0 <=? s then q * 10 ^ s else q in
  let lo := num / den in
  let remainder := num mod den in
  let hi := lo + 1 in
  let first :=
    if (2 * remainder <? den) || ((2 * remainder =? den) && Z.even lo)
    then lo else hi in
  let second := if first =? lo then hi else lo in
  let reads c :=
    (0 <? c) &&
    match of_decimal negative c s with
    | Finite negative' m' e' =>
        bool_decide (negative' = negative) && (m' =? m) && (e' =? e)
    | _ => false
    end in
  if reads first then Some (first, s)
  else if reads second then Some (second, s)
  else None.

Fixpoint shortest (fuel : nat) (negative : bool) (m e p q k n : Z)
  : Z * Z :=
  match fuel with
  | O => (0, 0)
  | S fuel' =>
      match candidate negative m e p q k n with
      | Some found => found
      | None => shortest fuel' negative m e p q k (n + 1)
      end
  end.

Definition zeros (n : Z) : string :=
  String.string_of_list_ascii (replicate (Z.to_nat n) "0"%char).

Definition repr (x : float) : string :=
  match x with
  | NaN => "nan"
  | Infinity negative => if negative then "-inf" else "inf"
  | Finite negative m e =>
      let sign := if negative then "-" else "" in
      if m =? 0 then sign +:+ "0.0"
      else
        let p := if 0 <=? e then m * 2 ^ e else m in
        let q := if 0 <=? e then 1 else 2 ^ (- e) in
        let k := floor_log10 p q in
        let '(c, s) := shortest 17 negative m e p q k 1 in
        let all := String.list_ascii_of_string (pretty c) in
        let ds := rev (strip_zeros (rev all)) in
        let count := Z.of_nat (length ds) in
        let decpt := Z.of_nat (length all) + s in
        if (decpt <=? -4) || (16 <? decpt) then
          let exponent := decpt - 1 in
          let shown := pretty (Z.abs exponent) in
          sign
          +:+ String.string_of_list_ascii (take 1 ds)
          +:+ (if 1 <? count
               then "." +:+ String.string_of_list_ascii (drop 1 ds) else "")
          +:+ "e" +:+ (if exponent <? 0 then "-" else "+")
          +:+ (if Z.abs exponent <? 10 then "0" else "") +:+ shown
        else if decpt <=? 0 then
          sign +:+ "0." +:+ zeros (- decpt) +:+ String.string_of_list_ascii ds
        else if count <=? decpt then
          sign +:+ String.string_of_list_ascii ds +:+ zeros (decpt - count) +:+ ".0"
        else
          sign +:+ String.string_of_list_ascii (take (Z.to_nat decpt) ds)
          +:+ "." +:+ String.string_of_list_ascii (drop (Z.to_nat decpt) ds)
      end.

(** *** Texts that are not ASCII *)

(** The code points of a UTF-8 string; [None] when the bytes are not
    UTF-8. *)
Fixpoint code_points (bytes : list Z) : option (list Z) :=
  let continuation b := (128 <=? b) && (b <=? 191) in
  match bytes with
  | [] => Some []
  | b :: r =>
      if b <? 128 then cons b <$> code_points r
      else if (194 <=? b) && (b <=? 223) then
        match r with
        | c1 :: r' =>
            if continuation c1
            then cons ((b - 192) * 64 + (c1 - 128)) <$> code_points r'
            else None
        | _ => None
        end
      else if (224 <=? b) && (b <=? 239) then
        match r with
        | c1 :: c2 :: r' =>
            let cp := (b - 224) * 4096 + (c1 - 128) * 64 + (c2 - 128) in
            if continuation c1 && continuation c2 && (2048 <=? cp)
               && negb ((55296 <=? cp) && (cp <=? 57343))
            then cons cp <$> code_points r' else None
        | _ => None
        end
      else if (240 <=? b) && (b <=? 244) then
        match r with
        | c1 :: c2 :: c3 :: r' =>
            let cp := (b - 240) * 262144 + (c1 - 128) * 4096
                      + (c2 - 128) * 64 + (c3 - 128) in
            if continuation c1 && continuation c2 && continuation c3
               && (65536 <=? cp) && (cp <=? 1114111)
            then cons cp <$> code_points r' else None
        | _ => None
        end
      else None
  end.

(** The code points of the digit zero of each script (Unicode 14.0); the
    other nine digits follow it. *)
Definition decimal_zeros : list Z :=
  [1632; 1776; 1984; 2406; 2534; 2662; 2790; 2918; 3046; 3174; 3302; 3430;
   3558; 3664; 3792; 3872; 4160; 4240; 6112; 6160; 6470; 6608; 6784; 6800;
   6992; 7088; 7232; 7248; 42528; 43216; 43264; 43472; 43504; 43600; 44016;
   65296; 66720; 68912; 69734; 69872; 69942; 70096; 70384; 70736; 70864;
   71248; 71360; 71472; 71904; 72016; 72784; 73040; 73120; 92768; 92864;
   93008; 120782; 120792; 120802; 120812; 120822; 123200; 123632; 125264;
   130032].

(** The white space beyond ASCII. *)
Definition spaces : list Z :=
  [133; 160; 5760; 8192; 8193; 8194; 8195; 8196; 8197; 8198; 8199; 8200;
   8201; 8202; 8232; 8233; 8239; 8287; 12288].

(** What [float] makes of a character before it reads the text: a space of
    a white space, the ASCII digit of a decimal digit, and [?] of any other
    character that is not ASCII. *)
Definition to_ascii (cp : Z) : ascii :=
  if cp <? 127 then ascii_of_nat (Z.to_nat cp)
  else if bool_decide (cp ∈ spaces) then " "%char
  else
    match List.find (λ zero, (zero <=? cp) && (cp <? zero + 10))
                    decimal_zeros with
    | Some zero => ascii_of_nat (Z.to_nat (48 + cp - zero))
    | None => "?"%char
    end.

(** [float(text)]. *)
Definition float_of_text (text : string) : option float :=
  match code_points (MD5.encode text) with
  | Some cps => parse (to_ascii <$> cps)
  | None => None
  end.

Abbreviation whole := float (only parsing).

#[export] Instance str_float : Str float := repr.

#[export] Instance float_float : PyFloat float := {
  float_of_str := float_of_text;
  float_zero := Finite false 0 0;
  nonpositive x :=
    match x with
    | Finite negative m _ => negative || (m =? 0)
    | Infinity negative => negative
    | NaN => false
    end
}.

Definition shop : Robokassa.RobokassaConfig :=
  Robokassa.Config "shop" "p1" "p2" None None false.
End SampleFloat.

(** ** The connection: the tables and the transaction state

    [Repository] keeps one [aiosqlite] connection, opened by
    [get_db_connection] with the default isolation level.  Besides the
    tables the connection has a transaction state ([in_transaction]):
    [execute("BEGIN")] raises [sqlite3.OperationalError] when a transaction
    is open and opens one otherwise; an [UPDATE] through [execute] opens one
    when none is open; [commit] closes it.  The methods below are those of
    [Repository] and [PaymentChecker] with that state; the calls they make
    one after the other are not interleaved with other coroutines. *)

Module Connection.
Import Py Repository Gateway PaymentChecker.

(** What awaiting a method yields: the value it returns, or the
    [sqlite3.OperationalError] it raises. *)
Inductive answer (A : Type) :=
| Returns (value : A)
| OperationalError.
Arguments Returns {A} value.
Arguments OperationalError {A}.

Section Conn.
Context {M : Type} `{Money M}.

Record connection := Conn {
  tables : DB M;
  in_transaction : bool
}.

(** [execute("BEGIN")]. *)
Definition begin (c : connection) : answer connection :=
  if in_transaction c then OperationalError
  else Returns (Conn (tables c) true).

(** [execute] of an [UPDATE]. *)
Definition execute (statement : DB M → DB M) (c : connection) : connection :=
  Conn (statement (tables c)) true.

(** [commit]. *)
Definition commit (c : connection) : connection := Conn (tables c) false.

(** [update_payment_status]: the [UPDATE], then [commit]. *)
Definition update_payment_status (invoice_id status : string)
    (c : connection) : connection * bool :=
  let rowcount :=
    length (List.filter (status_differs invoice_id status)
                        (payments (tables c))) in
  let c :=
    execute (λ db, Db (users db)
                      (map (λ p, if status_differs invoice_id status p
                                 then set_status status p else p)
                           (payments db))) c in
  (commit c, bool_decide (0 < rowcount)%nat).

(** [process_successful_payment]: [BEGIN], the [SELECT] of the pending
    row, and either [return None], which leaves the transaction open (no
    [commit] or rollback is reached), or the two [UPDATE]s and [commit]. *)
Definition process_successful_payment (invoice_id : string) (c : connection)
  : connection * answer (option (payment M)) :=
  match begin c with
  | OperationalError => (c, OperationalError)
  | Returns c =>
      match find (is_pending invoice_id) (payments (tables c)) with
      | None => (c, Returns None)
      | Some payment =>
          let c :=
            execute (λ db, Db (users db)
                              (map (λ p, if bool_decide
                                              (Repository.invoice_id p
                                               = invoice_id)
                                         then set_status "paid" p else p)
                                   (payments db))) c in
          let c :=
            execute (λ db, Db (map (λ u, if bool_decide
                                              (telegram_id u
                                               = user_id payment)
                                         then add_balance (amount payment) u
                                         else u)
                                   (users db))
                              (payments db)) c in
          (commit c, Returns (Some payment))
      end
  end.

(** [process_single_payment]; an exception of the settlement is caught by
    the step's [except Exception] and only logged. *)
Definition process_single_payment (h : handlers) (now : Z)
    (payment : payment M) (c : connection) : connection * list (event M) :=
  let payment_method := payment_method payment in
  let invoice_id := invoice_id payment in
  let payload_id := payload_id payment in
  if bool_decide (expires_at payment < now) then
    let '(c', changed) := update_payment_status invoice_id "expired" c in
    (c', if changed then [NotifiedExpired (user_id payment) invoice_id]
         else [])
  else
    let check_id :=
      if bool_decide (payment_method = "cryptobot") && truthy_str payload_id
      then default invoice_id payload_id else invoice_id in
    match check_status h payment_method check_id with
    | None => (c, [])
    | Some status_result =>
        match status_result with
        | Failure _ => (c, [Checked payment_method check_id status_result])
        | Success status =>
            if bool_decide (status = "paid") then
              match process_successful_payment invoice_id c with
              | (c', Returns (Some processed_payment)) =>
                  (c', [Checked payment_method check_id status_result;
                        NotifiedSuccess (user_id processed_payment)
                                        (amount processed_payment) invoice_id;
                        NotifiedAdmin processed_payment])
              | (c', Returns None) =>
                  (c', [Checked payment_method check_id status_result])
              | (c', OperationalError) =>
                  (c', [Checked payment_method check_id status_result])
              end
            else (c, [Checked payment_method check_id status_result])
        end
    end.

End Conn.
Arguments connection : clear implicits.
End Connection.

(** ** [payments/cryptobot_payment.py]: the status check

    [check_payment_status] makes up to two requests: for an id of digits
    the invoice itself, and otherwise, or when that request is not answered
    with 200 and [ok], the list of the last invoices.  [str.isdigit] and the
    [str] of a list or a dict follow the Unicode tables of the interpreter;
    the adapter is written over any two such functions. *)

Module CryptoBot.
Import Py Http Gateway.

Section Adapter.
Context (isdigit : string → bool) (repr : json → string).








End Adapter.
End CryptoBot.

(** * Properties *)

Import Repository.

(** ** Ledger *)

Section LedgerFacts.
Context {M : Type} `{Money M}.
Implicit Types (db : DB M) (p q : payment M) (u : user M) (inv st : string).

Lemma set_status_same p : set_status (status p) p = p.
Proof. by destruct p. Qed.

Lemma settled_not_pending inv (l : list (payment M)) :
  find (is_pending inv)
       (map (λ p, if bool_decide (invoice_id p = inv)
                  then set_status "paid" p else p) l) = None.
Proof.
  induction l as [|p l IH]; [done|].
  simpl. rewrite IH. unfold is_pending.
  destruct (decide (invoice_id p = inv)) as [Hinv|Hinv].
  - rewrite (bool_decide_eq_true_2 _ Hinv).
    rewrite bool_decide_eq_false_2; [done|]. by intros [_ ?].
  - rewrite (bool_decide_eq_false_2 _ Hinv).
    rewrite bool_decide_eq_false_2; [done|]. by intros [? _].
Qed.

Lemma process_not_pending inv db :
  find (is_pending inv) (payments db) = None →
  process_successful_payment inv db = (db, None).
Proof. intros Hf. unfold process_successful_payment. by rewrite Hf. Qed.

Lemma process_pending inv db p :
  find (is_pending inv) (payments db) = Some p →
  process_successful_payment inv db =
    (Db (map (λ u, if bool_decide (telegram_id u = user_id p)
                   then add_balance (amount p) u else u) (users db))
        (map (λ q, if bool_decide (invoice_id q = inv)
                   then set_status "paid" q else q) (payments db)),
     Some p).
Proof. intros Hf. unfold process_successful_payment. by rewrite Hf. Qed.

Lemma get_user_credited uid owner a (l : list (user M)) :
  find (λ u, bool_decide (telegram_id u = uid))
       (map (λ u, if bool_decide (telegram_id u = owner)
                  then add_balance a u else u) l)
  = (λ u, if bool_decide (uid = owner) then add_balance a u else u)
      <$> find (λ u, bool_decide (telegram_id u = uid)) l.
Proof.
  induction l as [|u l IH]; [done|].
  simpl. rewrite IH.
  destruct (decide (telegram_id u = owner)) as [Ho|Ho].
  - rewrite (bool_decide_eq_true_2 _ Ho). simpl.
    destruct (decide (telegram_id u = uid)) as [Hu|Hu].
    + rewrite (bool_decide_eq_true_2 _ Hu). simpl.
      rewrite bool_decide_eq_true_2; [done|congruence].
    + by rewrite (bool_decide_eq_false_2 _ Hu).
  - rewrite (bool_decide_eq_false_2 _ Ho).
    destruct (decide (telegram_id u = uid)) as [Hu|Hu].
    + rewrite (bool_decide_eq_true_2 _ Hu). simpl.
      rewrite bool_decide_eq_false_2; [done|congruence].
    + by rewrite (bool_decide_eq_false_2 _ Hu).
Qed.

Lemma get_payment_settled inv (l : list (payment M)) :
  find (λ p, bool_decide (invoice_id p = inv))
       (map (λ p, if bool_decide (invoice_id p = inv)
                  then set_status "paid" p else p) l)
  = set_status "paid" <$> find (λ p, bool_decide (invoice_id p = inv)) l.
Proof.
  induction l as [|p l IH]; [done|].
  simpl. rewrite IH.
  destruct (decide (invoice_id p = inv)) as [Hp|Hp].
  - rewrite (bool_decide_eq_true_2 _ Hp). simpl.
    by rewrite (bool_decide_eq_true_2 _ Hp).
  - by rewrite !(bool_decide_eq_false_2 _ Hp).
Qed.
Lemma update_payment_status_rows inv st db :
  (update_payment_status inv st db).1
  = Db (users db)
       (map (λ q, if bool_decide (invoice_id q = inv)
                  then set_status st q else q) (payments db)).
Proof.
  unfold update_payment_status. simpl. f_equal.
  apply map_ext. intros p. unfold status_differs.
  destruct (decide (invoice_id p = inv)) as [Hi|Hi].
  - rewrite (bool_decide_eq_true_2 _ Hi).
    destruct (decide (status p = st)) as [Hs|Hs].
    + rewrite bool_decide_eq_false_2 by (by intros [_ ?]).
      by rewrite <- Hs, set_status_same.
    + by rewrite bool_decide_eq_true_2.
  - rewrite (bool_decide_eq_false_2 _ Hi).
    by rewrite bool_decide_eq_false_2 by (by intros [? _]).
Qed.

Lemma status_differs_after inv st p :
  status_differs inv st (if status_differs inv st p then set_status st p else p)
  = false.
Proof.
  unfold status_differs.
  destruct (decide (invoice_id p = inv ∧ status p ≠ st)) as [Hd|Hd].
  - rewrite (bool_decide_eq_true_2 _ Hd).
    rewrite bool_decide_eq_false_2; [done|]. simpl. by intros [_ ?].
  - rewrite (bool_decide_eq_false_2 _ Hd).
    by rewrite (bool_decide_eq_false_2 _ Hd).
Qed.

Lemma update_payment_status_changed inv st db :
  (update_payment_status inv st db).2 = true
  ↔ ∃ p, p ∈ payments db ∧ invoice_id p = inv ∧ status p ≠ st.
Proof.
  unfold update_payment_status. simpl. rewrite bool_decide_eq_true. split.
  - intros Hlen.
    destruct (List.filter (status_differs inv st) (payments db))
      as [|p l] eqn:Hf; [simpl in Hlen; lia|].
    assert (In p (List.filter (status_differs inv st) (payments db))) as Hin
      by (rewrite Hf; by left).
    apply filter_In in Hin as [Hin Hd].
    exists p. split; [by apply list_elem_of_In|].
    by apply bool_decide_eq_true in Hd.
  - intros (p & Hin & Hi & Hs).
    assert (In p (List.filter (status_differs inv st) (payments db))) as Hf.
    { apply filter_In. split; [by apply list_elem_of_In|].
      by apply bool_decide_eq_true. }
    destruct (List.filter _ _); [done|simpl; lia].
Qed.

Lemma update_payment_status_again inv st db :
  update_payment_status inv st (update_payment_status inv st db).1
  = ((update_payment_status inv st db).1, false).
Proof.
  unfold update_payment_status. simpl.
  assert (List.filter (status_differs inv st)
            (map (λ p, if status_differs inv st p then set_status st p else p)
                 (payments db)) = []) as ->.
  { induction (payments db) as [|p l IH]; [done|]. simpl.
    by rewrite status_differs_after, IH. }
  f_equal. f_equal. rewrite map_map. apply map_ext. intros p.
  by rewrite status_differs_after.
Qed.
End LedgerFacts.

Section ConnectionFacts.
Context {M : Type} `{Money M}.
Implicit Types (c : Connection.connection M).

Lemma settlement_on_open_transaction inv c :
  Connection.in_transaction c = true →
  Connection.process_successful_payment inv c = (c, Connection.OperationalError).
Proof.
  intros Hopen. unfold Connection.process_successful_payment, Connection.begin.
  by rewrite Hopen.
Qed.

Lemma settlement_without_transaction inv c :
  Connection.in_transaction c = false →
  Connection.process_successful_payment inv c
  = match process_successful_payment inv (Connection.tables c) with
    | (db', Some payment) =>
        (Connection.Conn db' false, Connection.Returns (Some payment))
    | (db', None) => (Connection.Conn db' true, Connection.Returns None)
    end.
Proof.
  intros Hclean.
  unfold Connection.process_successful_payment, Connection.begin,
    process_successful_payment.
  rewrite Hclean. cbn [Connection.tables].
  by destruct (find _ _).
Qed.

Lemma update_payment_status_commits inv st c :
  Connection.update_payment_status inv st c
  = (Connection.Conn (update_payment_status inv st (Connection.tables c)).1
                     false,
     (update_payment_status inv st (Connection.tables c)).2).
Proof. done. Qed.
End ConnectionFacts.

(** C1.  The first call on a pending invoice, made on a connection
    without an open transaction, returns the row, marks the invoice paid,
    adds its amount to the owner's balance and commits.  The second call
    returns [None] and leaves the tables as they are, but it returns with
    the transaction of its [BEGIN] still open.  From then on every call,
    for this or any other invoice, raises [OperationalError] at its
    [BEGIN] and changes nothing, so the calls after the second do not
    return [None].  Through all of them the owner is credited once. *)
Theorem third_settlement_raises {M : Type} `{Money M}
    (c : Connection.connection M) (inv : string) (p : payment M) :
  Connection.in_transaction c = false →
  find (is_pending inv) (payments (Connection.tables c)) = Some p →
  let '(c1, r1) := Connection.process_successful_payment inv c in
  let '(c2, r2) := Connection.process_successful_payment inv c1 in
  let '(c3, r3) := Connection.process_successful_payment inv c2 in
  r1 = Connection.Returns (Some p) ∧
  Connection.in_transaction c1 = false ∧
  get_payment_by_invoice_id inv (Connection.tables c1)
    = set_status "paid" <$> get_payment_by_invoice_id inv (Connection.tables c) ∧
  (∀ q, q ∈ payments (Connection.tables c1) →
        invoice_id q = inv → status q = "paid") ∧
  r2 = Connection.Returns None ∧
  Connection.tables c2 = Connection.tables c1 ∧
  Connection.in_transaction c2 = true ∧
  r3 = Connection.OperationalError ∧ c3 = c2 ∧
  (∀ other, Connection.process_successful_payment other c3
            = (c3, Connection.OperationalError)) ∧
  ∀ uid, balance <$> get_user uid (Connection.tables c3)
         = (λ b, if bool_decide (uid = user_id p)
                 then madd b (amount p) else b)
             <$> (balance <$> get_user uid (Connection.tables c)).
Proof.
  intros Hclean Hp.
  rewrite (settlement_without_transaction _ _ Hclean).
  rewrite (process_pending _ _ _ Hp).
  rewrite settlement_without_transaction by done.
  cbn [Connection.tables].
  rewrite process_not_pending by apply settled_not_pending.
  rewrite settlement_on_open_transaction by done.
  split_and!; try done.
  - apply get_payment_settled.
  - intros q Hq Hinv. simpl in Hq.
    apply list_elem_of_fmap in Hq as (q0 & -> & _).
    case_bool_decide; [done|]. by destruct q0.
  - intros uid. unfold get_user; simpl. rewrite get_user_credited.
    destruct (find _ (users (Connection.tables c))) as [u|]; [|done].
    simpl. by case_bool_decide.
Qed.

Lemma third_settlement_raises_witness :
  let c := Connection.Conn (Sample.ledger "pending") false in
  let '(c1, r1) := Connection.process_successful_payment "INV-1" c in
  let '(c2, r2) := Connection.process_successful_payment "INV-1" c1 in
  let '(c3, r3) := Connection.process_successful_payment "INV-1" c2 in
  r1 = Connection.Returns (Some (Sample.invoice "pending")) ∧
  r2 = Connection.Returns None ∧
  r3 = Connection.OperationalError ∧
  balance <$> get_user 7 (Connection.tables c3) = Some 150.
Proof.
  intros c.
  pose proof (third_settlement_raises c "INV-1" (Sample.invoice "pending")
                eq_refl eq_refl) as Hw.
  destruct (Connection.process_successful_payment "INV-1" c) as [c1 r1].
  destruct (Connection.process_successful_payment "INV-1" c1) as [c2 r2].
  destruct (Connection.process_successful_payment "INV-1" c2) as [c3 r3].
  destruct Hw as (Hr1 & _ & _ & _ & Hr2 & _ & _ & Hr3 & _ & _ & Hbal).
  split_and!; [done..|]. rewrite Hbal. reflexivity.
Defined.



(** C6 (as stated) fails: [update_payment_status] guards on
    [status != ?] only, so an invoice that is already paid is changed to
    expired, and the call reports a change. *)
Lemma paid_invoice_becomes_expired :
  status <$> get_payment_by_invoice_id "INV-1" (Sample.ledger "paid")
    = Some "paid" ∧
  let '(db', changed) :=
    update_payment_status "INV-1" "expired" (Sample.ledger "paid") in
  changed = true ∧
  status <$> get_payment_by_invoice_id "INV-1" db' = Some "expired".
Proof. by vm_compute. Qed.

(** C6 (amended).  [update_payment_status inv st] leaves the users alone
    and gives status [st] to every row of the invoice, whatever its
    previous status; it reports a change exactly when some row of the
    invoice had another status; a second call with the same target changes
    nothing and reports [false]. *)
Theorem update_payment_status_sets_unless_same {M : Type} `{Money M}
    (db : DB M) (inv st : string) :
  let '(db1, changed) := update_payment_status inv st db in
  users db1 = users db ∧
  payments db1 = map (λ p, if bool_decide (invoice_id p = inv)
                           then set_status st p else p) (payments db) ∧
  (changed = true ↔ ∃ p, p ∈ payments db ∧ invoice_id p = inv ∧ status p ≠ st) ∧
  update_payment_status inv st db1 = (db1, false).
Proof.
  pose proof (update_payment_status_rows inv st db) as Hrows.
  pose proof (update_payment_status_changed inv st db) as Hchanged.
  pose proof (update_payment_status_again inv st db) as Hagain.
  destruct (update_payment_status inv st db) as [db1 changed].
  simpl in *. subst db1. done.
Qed.

Lemma update_payment_status_sets_unless_same_witness :
  let '(db1, changed) :=
    update_payment_status "INV-1" "expired" (Sample.ledger "pending") in
  db1 = Sample.ledger "expired" ∧ changed = true ∧
  update_payment_status "INV-1" "expired" db1 = (db1, false).
Proof.
  pose proof (update_payment_status_sets_unless_same
                (Sample.ledger "pending") "INV-1" "expired") as Hw.
  destruct (update_payment_status "INV-1" "expired" (Sample.ledger "pending"))
    as [[us ps] changed] eqn:Hstep.
  destruct Hw as (Hus & Hps & Hch & Hagain). simpl in Hus, Hps. subst us ps.
  split_and!; [reflexivity| |exact Hagain].
  apply Hch. exists (Sample.invoice "pending").
  split_and!; [by left|reflexivity|discriminate].
Defined.

(** ** Strings and digests *)

Import Py Robokassa.

(** The test suite of RFC 1321, and a message whose padding takes a second
    block. *)
Example md5_empty : MD5.hexdigest "" = "d41d8cd98f00b204e9800998ecf8427e".
Proof. by vm_compute. Qed.

Example md5_a : MD5.hexdigest "a" = "0cc175b9c0f1b6a831c399e269772661".
Proof. by vm_compute. Qed.

Example md5_abc : MD5.hexdigest "abc" = "900150983cd24fb0d6963f7d28e17f72".
Proof. by vm_compute. Qed.

Example md5_message_digest :
  MD5.hexdigest "message digest" = "f96b697d7cb7938d525a2f31aaf161d0".
Proof. by vm_compute. Qed.

Example md5_alphabet :
  MD5.hexdigest "abcdefghijklmnopqrstuvwxyz"
  = "c3fcd3d76192e4007dfb496cca67e13b".
Proof. by vm_compute. Qed.

Example md5_alphanumeric :
  MD5.hexdigest
    "ABCDEFGHIJKLMNOPQRSTUVWXYZabcdefghijklmnopqrstuvwxyz0123456789"
  = "d174ab98d277d9f5a5611c2c9f419d9f".
Proof. by vm_compute. Qed.

Example md5_digits :
  MD5.hexdigest
    "12345678901234567890123456789012345678901234567890123456789012345678901234567890"
  = "57edf4a22be3c955ac49da2e2107b67a".
Proof. by vm_compute. Qed.

(** The signed string and the signature of a callback with one extra
    parameter. *)
Example signature_string_sample :
  signature_string "shop" 100 "42" "secret" (Some [("user", "alice")])
  = "shop:100:42:secret:alice".
Proof. reflexivity. Qed.

Example calculate_signature_sample :
  calculate_signature "shop" 100 "42" "secret" (Some [("user", "alice")])
  = "26bfaff617693f7792c86c1967c309f8".
Proof. by vm_compute. Qed.

Example sorted_sample :
  sorted ["user"; "Plan"; "order"; "plan"] = ["Plan"; "order"; "plan"; "user"].
Proof. by vm_compute. Qed.

Lemma list_ascii_app (s t : string) :
  String.list_ascii_of_string (s +:+ t)
  = String.list_ascii_of_string s ++ String.list_ascii_of_string t.
Proof. induction s as [|c s IH]; [done|]. simpl. by rewrite IH. Qed.

Lemma string_app_inv_tail (s1 s2 t : string) :
  s1 +:+ t = s2 +:+ t → s1 = s2.
Proof.
  intros Heq. apply (f_equal String.list_ascii_of_string) in Heq.
  rewrite !list_ascii_app in Heq.
  apply app_inv_tail in Heq.
  apply (f_equal String.string_of_list_ascii) in Heq.
  by rewrite !String.string_of_list_ascii_of_string in Heq.
Qed.

Lemma join_cons (sep x : string) (l : list string) :
  l ≠ [] → join sep (x :: l) = x +:+ sep +:+ join sep l.
Proof. by destruct l. Qed.

(** Two lists of parts that differ in one position only are joined to
    different strings. *)
Lemma join_single_change (sep : string) (l1 l2 : list string) (x y : string) :
  join sep (l1 ++ x :: l2) = join sep (l1 ++ y :: l2) → x = y.
Proof.
  induction l1 as [|a l1 IH]; simpl app.
  - destruct l2 as [|b l2]; [done|].
    rewrite !join_cons by done. apply string_app_inv_tail.
  - rewrite !join_cons by (by destruct l1).
    intros Heq. apply String.app_inj, String.app_inj in Heq. by apply IH.
Qed.

Lemma lower_hex_digit (n : Z) :
  0 ≤ n < 16 → lower_ascii (MD5.hex_digit n) = MD5.hex_digit n.
Proof.
  intros Hn.
  assert (n ∈ [0; 1; 2; 3; 4; 5; 6; 7; 8; 9; 10; 11; 12; 13; 14; 15]) as Hin.
  { rewrite !elem_of_cons. lia. }
  rewrite !elem_of_cons in Hin.
  repeat (destruct Hin as [->|Hin]; [by vm_compute|]).
  by apply elem_of_nil in Hin.
Qed.

Lemma lower_hex (bs : list Z) :
  Forall (λ b, 0 ≤ b < 256) bs → lower (MD5.hex bs) = MD5.hex bs.
Proof.
  induction 1 as [|b bs Hb _ IH]; [done|].
  simpl. rewrite IH.
  rewrite !lower_hex_digit; [done| |].
  - apply Z.mod_pos_bound. lia.
  - split; [apply Z.div_pos; lia|apply Z.div_lt_upper_bound; lia].
Qed.

Lemma le_bytes_range (n : nat) (x : Z) :
  Forall (λ b, 0 ≤ b < 256) (MD5.le_bytes n x).
Proof.
  revert x. induction n as [|n IH]; intros x; simpl; [done|].
  constructor; [apply Z.mod_pos_bound; lia|apply IH].
Qed.

Lemma digest_range (msg : list Z) :
  Forall (λ b, 0 ≤ b < 256) (MD5.digest msg).
Proof.
  unfold MD5.digest.
  destruct (MD5.blocks _ _ _) as [[[a b] c] d].
  rewrite !Forall_app. split_and!; apply le_bytes_range.
Qed.

(** A hex digest is in lower case already. *)
Lemma lower_hexdigest (s : string) :
  lower (MD5.hexdigest s) = MD5.hexdigest s.
Proof. apply lower_hex, digest_range. Qed.

(** ** Dictionaries and sorted keys *)

Import SpecWords.

Section DictFacts.
Context {V : Type}.
Implicit Types (d : dict V) (k : string) (v : V).

Lemma getitem_elem d k v : NoDup (keys d) → (k, v) ∈ d → getitem d k = Some v.
Proof.
  unfold getitem, keys. induction d as [|[k' v'] d IH]; intros Hnd Hin.
  - by apply elem_of_nil in Hin.
  - apply NoDup_cons in Hnd as [Hk' Hnd]. simpl in *.
    apply elem_of_cons in Hin as [[= -> ->]|Hin].
    + by rewrite bool_decide_eq_true_2.
    + rewrite bool_decide_eq_false_2; [by apply IH|].
      intros ->. apply Hk', list_elem_of_fmap. by exists (k, v).
Qed.

Lemma getitem_Some d k v : getitem d k = Some v → (k, v) ∈ d.
Proof.
  unfold getitem. induction d as [|[k' v'] d IH]; [done|]. simpl.
  case_bool_decide as Hk; simpl in *.
  - intros [= ->]. subst. by left.
  - intros Hg. right. by apply IH.
Qed.

Lemma getitem_perm d1 d2 k :
  NoDup (keys d1) → d1 ≡ₚ d2 → getitem d1 k = getitem d2 k.
Proof.
  intros Hnd Hp.
  assert (NoDup (keys d2)) as Hnd2 by (unfold keys in *; by rewrite <- Hp).
  destruct (getitem d1 k) as [v|] eqn:H1.
  - symmetry. apply getitem_elem; [done|].
    rewrite <- Hp. by apply getitem_Some.
  - destruct (getitem d2 k) as [v|] eqn:H2; [|done].
    apply getitem_Some in H2. rewrite <- Hp in H2.
    apply (getitem_elem _ _ _ Hnd) in H2. congruence.
Qed.

Lemma sorted_perm (l1 l2 : list string) : l1 ≡ₚ l2 → sorted l1 = sorted l2.
Proof.
  intros Hp. unfold sorted.
  apply (Sorted_unique String.le); [apply Sorted_merge_sort, _..|].
  by rewrite !merge_sort_Permutation.
Qed.

#[local] Instance by_key_total : Total (@by_key V).
Proof. intros x y. apply (total String.le). Qed.

Lemma sorted_keys_by_key d : sorted (keys d) = (merge_sort by_key d).*1.
Proof.
  unfold sorted, keys.
  apply (Sorted_unique String.le).
  - apply Sorted_merge_sort, _.
  - apply (Sorted_fmap _ by_key); [done|]. apply Sorted_merge_sort, _.
  - by rewrite !merge_sort_Permutation.
Qed.
End DictFacts.

Section SignatureFacts.
Context {A V : Type} `{Str A, Str V}.
Implicit Types (d : dict V) (e : option (dict V)).

Lemma extra_values_Some d :
  extra_values (Some d)
  = omap (λ key, str <$> getitem d key) (sorted (keys d)).
Proof. by destruct d. Qed.

(** The code's loop over [sorted(extra_params.keys())] yields the values
    in ascending key order. *)
Lemma extra_values_in_key_order e :
  distinct_keys e → extra_values e = values_in_key_order e.
Proof.
  destruct e as [d|]; [|done]. intros Hnd. simpl in Hnd.
  rewrite extra_values_Some, sorted_keys_by_key. simpl.
  assert (∀ kv, kv ∈ merge_sort by_key d → kv ∈ d) as Hsub.
  { intros kv. by rewrite merge_sort_Permutation. }
  induction (merge_sort by_key d) as [|[k v] l IH]; [done|].
  simpl. rewrite (getitem_elem d k v Hnd) by (apply Hsub; by left).
  simpl. f_equal. apply IH. intros kv Hkv. apply Hsub. by right.
Qed.

Lemma extra_values_perm d1 d2 :
  NoDup (keys d1) → d1 ≡ₚ d2 →
  extra_values (Some d1) = extra_values (Some d2).
Proof.
  intros Hnd Hp. rewrite !extra_values_Some.
  rewrite (sorted_perm (keys d1) (keys d2)) by (unfold keys; by rewrite Hp).
  apply list_omap_ext, Forall2_same_length_lookup_2; [done|].
  intros i k1 k2 Hk1 Hk2. simplify_eq. by rewrite (getitem_perm d1 d2).
Qed.

Lemma verify_iff m (a : A) i sig pw e :
  verify_callback_signature m a i sig pw e = true
  ↔ lower sig = calculate_signature m a i pw e.
Proof.
  unfold verify_callback_signature. rewrite bool_decide_eq_true.
  unfold calculate_signature. rewrite lower_hexdigest. naive_solver.
Qed.

Lemma verify_own_signature m (a : A) i pw e :
  verify_callback_signature m a i (calculate_signature m a i pw e) pw e
  = true.
Proof. apply verify_iff. apply lower_hexdigest. Qed.
End SignatureFacts.

(** ** Callback signatures *)

(** C5.  Two dicts with the same entries in different iteration orders
    give the same signature. *)
Theorem signature_independent_of_iteration_order {A V : Type} `{Str A, Str V}
    (m : string) (a : A) (i pw : string) (d1 d2 : dict V) :
  NoDup (keys d1) → d1 ≡ₚ d2 →
  calculate_signature m a i pw (Some d1)
  = calculate_signature m a i pw (Some d2).
Proof.
  intros Hnd Hp. unfold calculate_signature, signature_string, signature_parts.
  by rewrite (extra_values_perm d1 d2).
Qed.

Lemma signature_independent_of_iteration_order_witness :
  NoDup (keys [("user", "alice"); ("plan", "gold")]) ∧
  [("user", "alice"); ("plan", "gold")] ≡ₚ [("plan", "gold"); ("user", "alice")] ∧
  calculate_signature "shop" 100 "42" "secret"
    (Some [("user", "alice"); ("plan", "gold")])
  = calculate_signature "shop" 100 "42" "secret"
    (Some [("plan", "gold"); ("user", "alice")]).
Proof.
  assert (NoDup (keys [("user", "alice"); ("plan", "gold")])) as Hnd.
  { apply (bool_decide_unpack (NoDup _)). vm_compute. exact I. }
  assert ([("user", "alice"); ("plan", "gold")]
          ≡ₚ [("plan", "gold"); ("user", "alice")]) as Hp by constructor.
  split_and!; [exact Hnd|exact Hp|].
  exact (signature_independent_of_iteration_order
           "shop" 100 "42" "secret" _ _ Hnd Hp).
Defined.

(** C10.  The signature depends on the values of [extra_params] taken in
    ascending key order only, not on the key names: two (well-formed)
    [extra_params] with the same sequence of values in key order give the
    same signature, and every callback is accepted under one exactly when
    it is under the other. *)
Theorem signature_ignores_key_names {A V : Type} `{Str A, Str V}
    (m : string) (a : A) (i pw : string) (e1 e2 : option (dict V)) :
  distinct_keys e1 → distinct_keys e2 →
  values_in_key_order e1 = values_in_key_order e2 →
  calculate_signature m a i pw e1 = calculate_signature m a i pw e2 ∧
  ∀ sig, verify_callback_signature m a i sig pw e1
         = verify_callback_signature m a i sig pw e2.
Proof.
  intros H1 H2 Hv.
  assert (calculate_signature m a i pw e1 = calculate_signature m a i pw e2)
    as Hc.
  { unfold calculate_signature, signature_string, signature_parts.
    by rewrite !extra_values_in_key_order, Hv. }
  split; [done|]. intros sig. unfold verify_callback_signature. by rewrite Hc.
Qed.

Lemma signature_ignores_key_names_witness :
  distinct_keys (Some [("user", "alice"); ("plan", "gold")]) ∧
  distinct_keys (Some [("a", "gold"); ("b", "alice")]) ∧
  values_in_key_order (Some [("user", "alice"); ("plan", "gold")])
  = values_in_key_order (Some [("a", "gold"); ("b", "alice")]) ∧
  calculate_signature "shop" 100 "42" "secret"
    (Some [("user", "alice"); ("plan", "gold")])
  = calculate_signature "shop" 100 "42" "secret"
    (Some [("a", "gold"); ("b", "alice")]).
Proof.
  assert (distinct_keys (Some [("user", "alice"); ("plan", "gold")])) as H1.
  { apply (bool_decide_unpack (NoDup _)). vm_compute. exact I. }
  assert (distinct_keys (Some [("a", "gold"); ("b", "alice")])) as H2.
  { apply (bool_decide_unpack (NoDup _)). vm_compute. exact I. }
  split_and!; [exact H1|exact H2|reflexivity|].
  exact (proj1 (signature_ignores_key_names "shop" 100 "42" "secret"
                  _ _ H1 H2 eq_refl)).
Defined.

(** ** A digest of 128 bits cannot separate all secrets *)

Lemma bounded_search (f : Z → Z) (v n : Z) :
  0 ≤ n →
  (∃ i, 0 ≤ i < n ∧ f i = v) ∨ (∀ i, 0 ≤ i < n → f i ≠ v).
Proof.
  revert n. apply (natlike_ind (λ n, _ ∨ _)).
  - right. lia.
  - intros n Hn [(i & Hi & Hf)|Hall].
    + left. exists i. split; [lia|done].
    + destruct (decide (f n = v)) as [Hv|Hv].
      * left. exists n. split; [lia|done].
      * right. intros i Hi. destruct (decide (i = n)) as [->|]; [done|].
        apply Hall. lia.
Qed.

(** The pigeonhole principle on an interval of integers. *)
Lemma pigeonhole (n : Z) :
  0 ≤ n →
  ∀ f : Z → Z, (∀ i, 0 ≤ i ≤ n → 0 ≤ f i < n) →
  ∃ i j, (0 ≤ i ∧ i < j ∧ j ≤ n) ∧ f i = f j.
Proof.
  revert n. apply (natlike_ind (λ n, ∀ f : Z → Z, _ → _)).
  - intros f Hf. specialize (Hf 0). lia.
  - intros n Hn IH f Hf.
    destruct (bounded_search f (f (Z.succ n)) (Z.succ n)) as [(i & Hi & Hv)|Hall];
      [lia| |].
    + exists i, (Z.succ n). split; [lia|done].
    + destruct (IH (λ i, if f i <? f (Z.succ n) then f i else f i - 1))
        as (i & j & Hij & Hg).
      * intros i Hi. pose proof (Hf i) as Hfi. pose proof (Hall i) as Hne.
        pose proof (Hf (Z.succ n)) as Hfn.
        destruct (Z.ltb_spec (f i) (f (Z.succ n))); lia.
      * exists i, j. split; [lia|].
        pose proof (Hall i) as Hi. pose proof (Hall j) as Hj.
        destruct (Z.ltb_spec (f i) (f (Z.succ n)));
          destruct (Z.ltb_spec (f j) (f (Z.succ n))); lia.
Qed.

Lemma block_range (st : MD5.state) (chunk : list Z) :
  let '(a, b, c, d) := MD5.block st chunk in
  0 ≤ a < 2^32 ∧ 0 ≤ b < 2^32 ∧ 0 ≤ c < 2^32 ∧ 0 ≤ d < 2^32.
Proof.
  unfold MD5.block. destruct st as [[[a0 b0] c0] d0].
  destruct (fold_left _ _ _) as [[[a b] c] d].
  unfold MD5.w32. split_and!; apply Z.mod_pos_bound; lia.
Qed.

Lemma blocks_range (n : nat) (st : MD5.state) (bs : list Z) :
  (let '(a, b, c, d) := st in
   0 ≤ a < 2^32 ∧ 0 ≤ b < 2^32 ∧ 0 ≤ c < 2^32 ∧ 0 ≤ d < 2^32) →
  let '(a, b, c, d) := MD5.blocks n st bs in
  0 ≤ a < 2^32 ∧ 0 ≤ b < 2^32 ∧ 0 ≤ c < 2^32 ∧ 0 ≤ d < 2^32.
Proof.
  revert st bs. induction n as [|n IH]; intros st bs Hst; [done|].
  simpl. apply IH, block_range.
Qed.

(** Among the strings [f s] of any family two have the same MD5 digest for
    two different [s]. *)
Lemma hexdigest_collision (f : string → string) :
  ∃ s1 s2 : string, s1 ≠ s2 ∧ MD5.hexdigest (f s1) = MD5.hexdigest (f s2).
Proof.
  pose (st := λ n : Z,
    MD5.blocks (length (MD5.pad (MD5.encode (f (pretty n)))) / 64)
               MD5.init (MD5.pad (MD5.encode (f (pretty n))))).
  pose (num := λ s : MD5.state,
    let '(a, b, c, d) := s in a + 2^32 * b + 2^64 * c + 2^96 * d).
  assert (∀ n, let '(a, b, c, d) := st n in
               0 ≤ a < 2^32 ∧ 0 ≤ b < 2^32 ∧ 0 ≤ c < 2^32 ∧ 0 ≤ d < 2^32)
    as Hrange.
  { intros n. apply blocks_range. unfold MD5.init. lia. }
  destruct (pigeonhole (2^128) ltac:(lia) (λ n, num (st n)))
    as (i & j & Hij & Heq).
  { intros n _. specialize (Hrange n). unfold num.
    destruct (st n) as [[[a b] c] d]. lia. }
  exists (pretty i), (pretty j). split.
  - intros Hp. apply (inj pretty) in Hp. lia.
  - unfold MD5.hexdigest, MD5.digest. fold (st i) (st j).
    pose proof (Hrange i) as Hi. pose proof (Hrange j) as Hj.
    unfold num in Heq.
    destruct (st i) as [[[a b] c] d], (st j) as [[[a' b'] c'] d'].
    assert (a = a' ∧ b = b' ∧ c = c' ∧ d = d') as (-> & -> & -> & ->) by lia.
    done.
Qed.

(** ** What a change of one input does to the signed string *)

Section SetitemFacts.
Context {V : Type}.
Implicit Types (d : dict V) (k : string) (v : V).

Lemma keys_setitem_present d k v :
  k ∈ keys d → keys (RobokassaRest.setitem d k v) = keys d.
Proof.
  unfold keys. induction d as [|[k0 v0] d IH]; intros Hk.
  - by apply elem_of_nil in Hk.
  - cbn [RobokassaRest.setitem]. case_bool_decide as Hk0; [done|].
    cbn [fmap list_fmap fst]. f_equal. apply IH.
    cbn [fmap list_fmap fst] in Hk. apply elem_of_cons in Hk as [->|Hk]; done.
Qed.

Lemma getitem_setitem_same d k v :
  getitem (RobokassaRest.setitem d k v) k = Some v.
Proof.
  unfold getitem. induction d as [|[k0 v0] d IH].
  - cbn. by rewrite bool_decide_eq_true_2.
  - cbn [RobokassaRest.setitem]. case_bool_decide as Hk0.
    + cbn [find fst]. by rewrite bool_decide_eq_true_2.
    + cbn [find fst]. by rewrite bool_decide_eq_false_2.
Qed.

Lemma getitem_setitem_other d k k' v :
  k' ≠ k → getitem (RobokassaRest.setitem d k v) k' = getitem d k'.
Proof.
  intros Hne. unfold getitem. induction d as [|[k0 v0] d IH].
  - cbn. by rewrite bool_decide_eq_false_2.
  - cbn [RobokassaRest.setitem]. case_bool_decide as Hk0.
    + subst k0. cbn [find fst]. by rewrite !bool_decide_eq_false_2.
    + cbn [find fst]. by destruct (bool_decide (k0 = k')).
Qed.
End SetitemFacts.

Lemma omap_ext_in {X Y : Type} (f g : X → option Y) (l : list X) :
  (∀ x, x ∈ l → f x = g x) → omap f l = omap g l.
Proof.
  induction l as [|x l IH]; intros Hfg; [done|].
  cbn [omap list_omap]. rewrite (Hfg x) by (by left).
  rewrite IH; [done|]. intros y Hy. apply Hfg. by right.
Qed.

Section ChangeFacts.
Context {A V : Type} `{Str A, Str V}.
Implicit Types (d : dict V) (e : option (dict V)).

(** Replacing the value of one entry changes one of the signed values. *)
Lemma extra_values_setitem d k v v' :
  NoDup (keys d) → getitem d k = Some v →
  ∃ before after,
    extra_values (Some d) = before ++ str v :: after ∧
    extra_values (Some (RobokassaRest.setitem d k v'))
    = before ++ str v' :: after.
Proof.
  intros Hnd Hg.
  assert (k ∈ keys d) as Hk.
  { apply getitem_Some in Hg. unfold keys. apply list_elem_of_fmap.
    by exists (k, v). }
  assert (sorted (keys d) ≡ₚ keys d) as Hperm by apply merge_sort_Permutation.
  assert (k ∈ sorted (keys d)) as Hks by (by rewrite Hperm).
  assert (NoDup (sorted (keys d))) as Hnds by (by rewrite Hperm).
  apply list_elem_of_split in Hks as (l1 & l2 & Hsplit).
  rewrite Hsplit in Hnds. apply NoDup_app in Hnds as (_ & Hl1 & Hl2).
  apply NoDup_cons in Hl2 as [Hl2 _].
  exists (omap (λ key, str <$> getitem d key) l1),
         (omap (λ key, str <$> getitem d key) l2).
  rewrite !extra_values_Some, keys_setitem_present by done.
  rewrite Hsplit, !omap_app. cbn [omap list_omap].
  rewrite Hg, getitem_setitem_same. cbn [fmap option_fmap option_map].
  split; [done|].
  rewrite (omap_ext_in (λ key, str <$> getitem (RobokassaRest.setitem d k v') key)
                       (λ key, str <$> getitem d key) l1).
  - rewrite (omap_ext_in
               (λ key, str <$> getitem (RobokassaRest.setitem d k v') key)
               (λ key, str <$> getitem d key) l2); [done|].
    intros k0 Hk0. rewrite getitem_setitem_other; [done|]. by intros ->.
  - intros k0 Hk0. rewrite getitem_setitem_other; [done|].
    intros ->. apply (Hl1 k); [done|by left].
Qed.

(** The old signature verifies against changed inputs exactly when the
    two signed strings have the same digest. *)
Lemma verify_old_signature m (a : A) i pw e m' (a' : A) i' pw' e' :
  verify_callback_signature m' a' i' (calculate_signature m a i pw e) pw' e'
  = true
  ↔ MD5.hexdigest (signature_string m' a' i' pw' e')
    = MD5.hexdigest (signature_string m a i pw e).
Proof.
  rewrite verify_iff. unfold calculate_signature. rewrite lower_hexdigest.
  split; by intros ->.
Qed.

Lemma changed_part_detected m (a : A) i pw e m' (a' : A) i' pw' e'
    (before after : list string) (x y : string) :
  signature_parts m a i pw e = before ++ x :: after →
  signature_parts m' a' i' pw' e' = before ++ y :: after →
  y ≠ x →
  detected_unless_collision
    (signature_string m a i pw e) (signature_string m' a' i' pw' e')
    (verify_callback_signature m' a' i' (calculate_signature m a i pw e)
                               pw' e').
Proof.
  intros Hp Hp' Hxy. split; [|apply verify_old_signature].
  unfold signature_string. rewrite Hp, Hp'.
  intros Heq. by apply join_single_change in Heq.
Qed.

Lemma colliding_secrets m (a : A) i e :
  ∃ pw1 pw2 : string,
    pw1 ≠ pw2 ∧
    verify_callback_signature m a i (calculate_signature m a i pw1 e) pw2 e
    = true.
Proof.
  destruct (hexdigest_collision (λ pw, signature_string m a i pw e))
    as (pw1 & pw2 & Hne & Hcol).
  exists pw1, pw2. split; [done|]. by apply verify_old_signature.
Qed.
End ChangeFacts.

(** C3 (as stated) fails: renaming the key of an entry of [extra_params]
    is a change of one input, and the callback signed under the old name
    still verifies. *)
Lemma renamed_key_still_verifies :
  Some [("user", "alice")] ≠ Some [("login", "alice")] ∧
  verify_callback_signature "shop" 100 "42"
    (calculate_signature "shop" 100 "42" "secret" (Some [("user", "alice")]))
    "secret" (Some [("login", "alice")]) = true.
Proof. split; [discriminate|by vm_compute]. Qed.

(** C3 (amended).  A signature verifies against the inputs it was computed
    from.  A change of the merchant login alone, of the amount alone (to
    one that is rendered differently), of the invoice id alone, of the
    secret alone, or of the value of one entry of [extra_params] alone (to
    one that is rendered differently) changes the signed string, and the
    old signature then verifies against the changed inputs exactly when
    the two different signed strings have the same MD5 digest.  Such pairs
    exist: for all other inputs there are two different secrets such that
    the signature computed with one verifies with the other.  A change of
    key names that keeps the values in key order changes neither the
    signature nor the verification. *)
Theorem signature_verifies_and_detects_changed_part {A V : Type}
    `{Str A, Str V}
    (m : string) (a : A) (i pw : string) (e : option (dict V)) :
  let signed := signature_string m a i pw e in
  let sig := calculate_signature m a i pw e in
  verify_callback_signature m a i sig pw e = true ∧
  (∀ m', m' ≠ m →
     detected_unless_collision signed (signature_string m' a i pw e)
       (verify_callback_signature m' a i sig pw e)) ∧
  (∀ a' : A, str a' ≠ str a →
     detected_unless_collision signed (signature_string m a' i pw e)
       (verify_callback_signature m a' i sig pw e)) ∧
  (∀ i', i' ≠ i →
     detected_unless_collision signed (signature_string m a i' pw e)
       (verify_callback_signature m a i' sig pw e)) ∧
  (∀ pw', pw' ≠ pw →
     detected_unless_collision signed (signature_string m a i pw' e)
       (verify_callback_signature m a i sig pw' e)) ∧
  (∀ (d : dict V) (k : string) (v v' : V),
     e = Some d → NoDup (keys d) → getitem d k = Some v → str v' ≠ str v →
     let e' := Some (RobokassaRest.setitem d k v') in
     detected_unless_collision signed (signature_string m a i pw e')
       (verify_callback_signature m a i sig pw e')) ∧
  (∃ pw1 pw2 : string,
     pw1 ≠ pw2 ∧
     verify_callback_signature m a i (calculate_signature m a i pw1 e) pw2 e
     = true) ∧
  (∀ e' : option (dict V),
     distinct_keys e → distinct_keys e' →
     values_in_key_order e' = values_in_key_order e →
     calculate_signature m a i pw e' = sig ∧
     verify_callback_signature m a i sig pw e' = true).
Proof.
  intros signed sig. subst signed sig. split_and!.
  - apply verify_own_signature.
  - intros m' Hm.
    by apply (changed_part_detected _ _ _ _ _ _ _ _ _ _
                [] ([str a; str i; pw] ++ extra_values e) m m').
  - intros a' Ha.
    by apply (changed_part_detected _ _ _ _ _ _ _ _ _ _
                [m] ([str i; pw] ++ extra_values e) (str a) (str a')).
  - intros i' Hi.
    by apply (changed_part_detected _ _ _ _ _ _ _ _ _ _
                [m; str a] ([pw] ++ extra_values e) (str i) (str i')).
  - intros pw' Hpw.
    by apply (changed_part_detected _ _ _ _ _ _ _ _ _ _
                [m; str a; str i] (extra_values e) pw pw').
  - intros d k v v' -> Hnd Hg Hv e'.
    destruct (extra_values_setitem d k v v' Hnd Hg)
      as (before & after & Hold & Hnew).
    apply (changed_part_detected _ _ _ _ _ _ _ _ _ _
             ([m; str a; str i; pw] ++ before) after (str v) (str v'));
      [|  |done].
    + unfold signature_parts. by rewrite Hold, <- app_assoc.
    + unfold signature_parts. subst e'. by rewrite Hnew, <- app_assoc.
  - apply colliding_secrets.
  - intros e' He He' Hv.
    assert (calculate_signature m a i pw e' = calculate_signature m a i pw e)
      as Hc.
    { unfold calculate_signature, signature_string, signature_parts.
      by rewrite !extra_values_in_key_order, Hv. }
    split; [done|]. rewrite <- Hc. apply verify_own_signature.
Qed.

Lemma signature_verifies_and_detects_changed_part_witness :
  "43" ≠ "42" ∧
  "secret2" ≠ "secret" ∧
  verify_callback_signature "shop" 100 "43"
    (calculate_signature "shop" 100 "42" "secret" (Some [("user", "alice")]))
    "secret" (Some [("user", "alice")]) = false ∧
  verify_callback_signature "shop" 100 "42"
    (calculate_signature "shop" 100 "42" "secret" (Some [("user", "alice")]))
    "secret2" (Some [("user", "alice")]) = false.
Proof.
  assert ("43" ≠ "42") as Hi by discriminate.
  assert ("secret2" ≠ "secret") as Hpw by discriminate.
  destruct (signature_verifies_and_detects_changed_part
              "shop" 100 "42" "secret" (Some [("user", "alice")]))
    as (_ & _ & _ & Hinv & Hsecret & _).
  split_and!; [exact Hi|exact Hpw| |].
  - destruct (Hinv "43" Hi) as [_ Hiff].
    apply not_true_iff_false. intros Htrue. apply Hiff in Htrue.
    vm_compute in Htrue. discriminate.
  - destruct (Hsecret "secret2" Hpw) as [_ Hiff].
    apply not_true_iff_false. intros Htrue. apply Hiff in Htrue.
    vm_compute in Htrue. discriminate.
Defined.

(** ** Which secret verifies which callback *)

(** C4 (as stated) fails.  In sandbox mode the success path checks
    against [test_password1], not [password1]: with the two secrets
    [password1] and [password2] different, a callback signed with
    [password1] is rejected by the success path, and one signed with the
    secondary secret [password2] is accepted by it when [test_password1]
    holds that value. *)
Lemma secondary_digest_passes_success_path :
  let config := Config "shop" "p1" "p2" (Some "p2") (Some "t2") true in
  password1 config ≠ password2 config ∧
  process_success_callback config "shop" 100 "42"
    (calculate_signature "shop" 100 "42" (password2 config)
                         (None : option (dict string)))
    (None : option (dict string))
  = (true, "OK42") ∧
  process_success_callback config "shop" 100 "42"
    (calculate_signature "shop" 100 "42" (password1 config)
                         (None : option (dict string)))
    (None : option (dict string))
  = (false, "Invalid signature").
Proof. split_and!; [discriminate|by vm_compute..]. Qed.

(** C4 (amended).  The secret of the success path is [get_password1]:
    [password1] outside sandbox mode, and in sandbox mode [test_password1]
    when it is set and not empty, [password1] otherwise; the secret of the
    failure and status paths is [get_password2], likewise from
    [password2] and [test_password2].  Each path accepts a callback
    exactly when its signature verifies against the path's secret, so a
    digest computed with the secret of a path is accepted by that path.
    When the two secrets differ the two signed strings differ, and a
    digest computed with one secret is accepted by the paths of the other
    exactly when the two MD5 digests coincide, so it is rejected whenever
    they differ.  They can coincide: there are two different secrets for
    which the digest computed with the secondary one passes the success
    path. *)
Theorem callbacks_verified_with_their_own_secret {A V : Type} `{Str A, Str V}
    (config : RobokassaConfig) (m : string) (a : A) (i : string)
    (e : option (dict V)) :
  let sig1 := calculate_signature m a i (get_password1 config) e in
  let sig2 := calculate_signature m a i (get_password2 config) e in
  (use_sandbox config = false →
   get_password1 config = password1 config ∧
   get_password2 config = password2 config) ∧
  (use_sandbox config = true →
   get_password1 config
   = match test_password1 config with
     | Some test => if bool_decide (test = "") then password1 config else test
     | None => password1 config
     end ∧
   get_password2 config
   = match test_password2 config with
     | Some test => if bool_decide (test = "") then password2 config else test
     | None => password2 config
     end) ∧
  (∀ sig, process_success_callback config m a i sig e
          = if verify_callback_signature m a i sig (get_password1 config) e
            then (true, "OK" +:+ i) else (false, "Invalid signature")) ∧
  (∀ sig, process_fail_callback config m a i sig e
          = if verify_callback_signature m a i sig (get_password2 config) e
            then (true, "FAIL") else (false, "Invalid signature")) ∧
  (∀ sig, process_status_callback config m a i sig e
          = if verify_callback_signature m a i sig (get_password2 config) e
            then (true, "OK" +:+ i) else (false, "Invalid signature")) ∧
  process_success_callback config m a i sig1 e = (true, "OK" +:+ i) ∧
  process_fail_callback config m a i sig2 e = (true, "FAIL") ∧
  process_status_callback config m a i sig2 e = (true, "OK" +:+ i) ∧
  (get_password1 config ≠ get_password2 config →
   signature_string m a i (get_password1 config) e
     ≠ signature_string m a i (get_password2 config) e ∧
   (sig1 ≠ sig2 →
    process_success_callback config m a i sig2 e
      = (false, "Invalid signature") ∧
    process_fail_callback config m a i sig1 e
      = (false, "Invalid signature") ∧
    process_status_callback config m a i sig1 e
      = (false, "Invalid signature")) ∧
   (sig1 = sig2 →
    process_success_callback config m a i sig2 e = (true, "OK" +:+ i) ∧
    process_fail_callback config m a i sig1 e = (true, "FAIL") ∧
    process_status_callback config m a i sig1 e = (true, "OK" +:+ i))) ∧
  (∃ secret1 secret2 : string,
     secret1 ≠ secret2 ∧
     let other := Config (merchant_login config) secret1 secret2
                         None None false in
     process_success_callback other m a i
       (calculate_signature m a i (get_password2 other) e) e
     = (true, "OK" +:+ i)).
Proof.
  intros sig1 sig2.
  assert (∀ sig pw, verify_callback_signature m a i sig pw e = false
                    ↔ lower sig ≠ calculate_signature m a i pw e) as Hfalse.
  { intros sig pw. by rewrite <- not_true_iff_false, verify_iff. }
  unfold process_success_callback, process_fail_callback,
    process_status_callback, verify_payment, verify_payment_secondary.
  split_and!.
  - intros Hoff. unfold get_password1, get_password2. rewrite Hoff.
    by destruct (test_password1 config), (test_password2 config).
  - intros Hon. unfold get_password1, get_password2, truthy_str.
    rewrite Hon.
    destruct (test_password1 config) as [t1|], (test_password2 config) as [t2|];
      cbn [andb]; repeat case_bool_decide; done.
  - intros sig. by destruct (verify_callback_signature _ _ _ _ _ _).
  - intros sig. by destruct (verify_callback_signature _ _ _ _ _ _).
  - intros sig. by destruct (verify_callback_signature _ _ _ _ _ _).
  - unfold sig1. by rewrite verify_own_signature.
  - unfold sig2. by rewrite verify_own_signature.
  - unfold sig2. by rewrite verify_own_signature.
  - intros Hpw. split_and!.
    + unfold signature_string, signature_parts. intros Heq.
      apply (join_single_change ":" [m; str a; str i] (extra_values e)) in Heq.
      done.
    + intros Hsig.
      assert (verify_callback_signature m a i sig2 (get_password1 config) e
              = false) as ->.
      { apply Hfalse. unfold sig2, calculate_signature at 1.
        rewrite lower_hexdigest. intros Heq. by apply Hsig. }
      assert (verify_callback_signature m a i sig1 (get_password2 config) e
              = false) as ->.
      { apply Hfalse. unfold sig1, calculate_signature at 1.
        rewrite lower_hexdigest. intros Heq. by apply Hsig. }
      done.
    + intros Hsig.
      assert (verify_callback_signature m a i sig2 (get_password1 config) e
              = true) as ->.
      { rewrite <- Hsig. apply verify_own_signature. }
      assert (verify_callback_signature m a i sig1 (get_password2 config) e
              = true) as ->.
      { rewrite Hsig. apply verify_own_signature. }
      done.
  - destruct (colliding_secrets m a i e) as (pw1 & pw2 & Hne & Hv).
    exists pw2, pw1. split; [done|]. cbv zeta.
    change (get_password1 (Config (merchant_login config) pw2 pw1
                                  None None false)) with pw2.
    change (get_password2 (Config (merchant_login config) pw2 pw1
                                  None None false)) with pw1.
    by rewrite Hv.
Qed.

Lemma callbacks_verified_with_their_own_secret_witness :
  let config := Config "shop" "p1" "p2" None None false in
  get_password1 config ≠ get_password2 config ∧
  calculate_signature "shop" 100 "42" (get_password1 config)
                      (Some [("user", "alice")])
    ≠ calculate_signature "shop" 100 "42" (get_password2 config)
                          (Some [("user", "alice")]) ∧
  process_success_callback config "shop" 100 "42"
    (calculate_signature "shop" 100 "42" (get_password2 config)
                         (Some [("user", "alice")]))
    (Some [("user", "alice")])
  = (false, "Invalid signature").
Proof.
  intros config.
  assert (get_password1 config ≠ get_password2 config) as Hpw
    by (vm_compute; discriminate).
  assert (calculate_signature "shop" 100 "42" (get_password1 config)
            (Some [("user", "alice")])
          ≠ calculate_signature "shop" 100 "42" (get_password2 config)
              (Some [("user", "alice")])) as Hsig
    by (vm_compute; discriminate).
  split_and!; [exact Hpw|exact Hsig|].
  pose proof (callbacks_verified_with_their_own_secret config "shop" 100 "42"
                (Some [("user", "alice")])) as Hw.
  cbv zeta in Hw.
  destruct Hw as (_ & _ & _ & _ & _ & _ & _ & _ & Hdiff & _).
  destruct (Hdiff Hpw) as (_ & Hrej & _).
  exact (proj1 (Hrej Hsig)).
Defined.

(** ** Status decoding by the adapters *)

Import Http Gateway PaymentChecker.



Section CryptoBotFacts.
Context (isdigit : string → bool) (repr : json → string).




End CryptoBotFacts.



(** ** The reconciliation step *)

Section CheckerFacts.
Context {M : Type} `{Money M}.
Implicit Types (db : DB M) (p q : payment M) (h : handlers).

Lemma process_single_payment_expired h now p db :
  expires_at p < now →
  process_single_payment h now p db
  = ((update_payment_status (invoice_id p) "expired" db).1,
     if (update_payment_status (invoice_id p) "expired" db).2
     then [NotifiedExpired (user_id p) (invoice_id p)] else []).
Proof.
  intros Hexp. unfold process_single_payment.
  rewrite bool_decide_eq_true_2 by done.
  by destruct (update_payment_status _ _ _).
Qed.
(** A step that finds no adapter, or whose check fails, returns the
    database it was given. *)
Lemma process_single_payment_no_answer h now p db :
  ¬ expires_at p < now →
  (∀ st, check_status h (payment_method p)
           (if bool_decide (payment_method p = "cryptobot")
               && truthy_str (payload_id p)
            then default (invoice_id p) (payload_id p) else invoice_id p)
         ≠ Some (Success st)) →
  (process_single_payment h now p db).1 = db.
Proof.
  intros Hexp Hfail. unfold process_single_payment.
  rewrite bool_decide_eq_false_2 by done.
  destruct (check_status _ _ _) as [[st|err]|]; [|done..].
  by destruct (Hfail st).
Qed.

(** A whole cycle in which no listed payment has expired when it is
    processed and no adapter answers with a success changes nothing. *)
Lemma check_pending_payments_no_answer h enabled now_db now_at db :
  (∀ p, p ∈ get_pending_payments now_db db →
        ¬ expires_at p < now_at p ∧
        ∀ st, check_status h (payment_method p)
                (if bool_decide (payment_method p = "cryptobot")
                    && truthy_str (payload_id p)
                 then default (invoice_id p) (payload_id p)
                 else invoice_id p)
              ≠ Some (Success st)) →
  (check_pending_payments h enabled now_db now_at db).1 = db.
Proof.
  unfold check_pending_payments.
  generalize (@nil (event M)). generalize (get_pending_payments now_db db).
  intros l. induction l as [|p l IH]; intros events Hall; [done|].
  simpl. destruct (enabled (payment_method p)).
  - destruct (Hall p ltac:(by left)) as [Hexp Hfail].
    pose proof (process_single_payment_no_answer h (now_at p) p db Hexp Hfail)
      as Hstep.
    destruct (process_single_payment h (now_at p) p db) as [db' evs].
    simpl in Hstep. subst db'. apply IH. intros q Hq. apply Hall. by right.
  - apply IH. intros q Hq. apply Hall. by right.
Qed.
End CheckerFacts.

(** C8.  A payment whose [expires_at] is in the past when it is processed
    is not settled, whatever the adapters would answer: no adapter is asked,
    no success is notified, no balance changes, and every row of the invoice
    gets status [expired]. *)
Theorem expired_payment_is_expired_not_settled {M : Type} `{Money M}
    (h : handlers) (now : Z) (p : payment M) (db : DB M) :
  expires_at p < now →
  let '(db', events) := process_single_payment h now p db in
  (∀ m id r, Checked m id r ∉ events) ∧
  (∀ uid a inv, NotifiedSuccess uid a inv ∉ events) ∧
  users db' = users db ∧
  payments db' = map (λ q, if bool_decide (invoice_id q = invoice_id p)
                           then set_status "expired" q else q)
                     (payments db) ∧
  (∀ q, q ∈ payments db' → invoice_id q = invoice_id p →
        status q = "expired").
Proof.
  intros Hexp. rewrite (process_single_payment_expired _ _ _ _ Hexp).
  rewrite update_payment_status_rows.
  generalize ((update_payment_status (invoice_id p) "expired" db).2).
  intros changed. simpl.
  split_and!; try done.
  - intros m id r. destruct changed.
    + by intros [=]%list_elem_of_singleton.
    + apply not_elem_of_nil.
  - intros uid a inv. destruct changed.
    + by intros [=]%list_elem_of_singleton.
    + apply not_elem_of_nil.
  - intros q Hq Hinv. apply list_elem_of_fmap in Hq as (q0 & -> & _).
    case_bool_decide as Hq0; [done|]. by destruct q0.
Qed.

Lemma expired_payment_is_expired_not_settled_witness :
  expires_at (Sample.invoice "pending") < 2000 ∧
  process_single_payment Sample.all_paid 2000 (Sample.invoice "pending")
                         (Sample.ledger "pending")
  = (Sample.ledger "expired", [NotifiedExpired 7 "INV-1"]).
Proof.
  assert (expires_at (Sample.invoice "pending") < 2000) as Hexp
    by (vm_compute; reflexivity).
  split; [exact Hexp|].
  pose proof (expired_payment_is_expired_not_settled Sample.all_paid 2000
                (Sample.invoice "pending") (Sample.ledger "pending") Hexp)
    as Hw.
  destruct (process_single_payment Sample.all_paid 2000
              (Sample.invoice "pending") (Sample.ledger "pending"))
    as [[us ps] events] eqn:Hstep.
  destruct Hw as (_ & _ & Hus & Hps & _). simpl in Hus, Hps. subst us ps.
  vm_compute in Hstep. injection Hstep as <-. reflexivity.
Defined.

(** C9.  When the status check awaited in a step comes back as a failure,
    the step leaves the ledger as it was (no expiry, no settlement) and
    does nothing else. *)
Theorem failed_check_leaves_ledger_unchanged {M : Type} `{Money M}
    (h : handlers) (now : Z) (p : payment M) (db : DB M) :
  let '(db', events) := process_single_payment h now p db in
  ∀ m id err,
    Checked m id (Failure err) ∈ events →
    db' = db ∧ events = [Checked m id (Failure err)].
Proof.
  unfold process_single_payment.
  case_bool_decide as Hexp.
  - destruct (update_payment_status _ _ _) as [db' [|]];
      intros m id err Hin.
    + by apply list_elem_of_singleton in Hin.
    + by apply elem_of_nil in Hin.
  - destruct (check_status _ _ _) as [[st|err0]|].
    + case_bool_decide as Hpaid.
      * destruct (process_successful_payment _ _) as [db' [pp|]];
          intros m id err Hin;
          repeat (apply elem_of_cons in Hin as [[=]|Hin]);
          by apply elem_of_nil in Hin.
      * intros m id err Hin. by apply list_elem_of_singleton in Hin.
    + intros m id err Hin. apply list_elem_of_singleton in Hin.
      injection Hin as -> -> ->. done.
    + intros m id err Hin. by apply elem_of_nil in Hin.
Qed.

Lemma failed_check_leaves_ledger_unchanged_witness :
  let h := handlers_on Sample.network_down (λ _, Failure ConnectionError) in
  process_single_payment h 1500 (Sample.invoice "pending")
                         (Sample.ledger "pending")
  = (Sample.ledger "pending",
     [Checked "lolz" "INV-1" (Failure ConnectionError)]).
Proof.
  intros h.
  pose proof (failed_check_leaves_ledger_unchanged h 1500
                (Sample.invoice "pending") (Sample.ledger "pending")) as Hw.
  destruct (process_single_payment h 1500 (Sample.invoice "pending")
              (Sample.ledger "pending")) as [db' events] eqn:Hstep.
  assert (events = [Checked "lolz" "INV-1" (Failure ConnectionError)]) as Hev.
  { vm_compute in Hstep. by injection Hstep as _ <-. }
  destruct (Hw "lolz" "INV-1" ConnectionError) as [-> ->];
    [rewrite Hev; by left|].
  reflexivity.
Defined.

(** * Further properties of the code *)

(** ** Ledger: creation, lookup and listing *)

Import RepositoryRest.

Section LedgerMore.
Context {M : Type} `{Money M}.
Implicit Types (db : DB M) (p q : payment M) (u : user M) (inv st : string).

Lemma find_app_None {A} (P : A → bool) (l l' : list A) :
  find P l = None → find P (l ++ l') = find P l'.
Proof.
  induction l as [|x l IH]; [done|]. simpl.
  destruct (P x); [done|apply IH].
Qed.

Lemma find_app_Some {A} (P : A → bool) (l l' : list A) x :
  find P l = Some x → find P (l ++ l') = Some x.
Proof.
  induction l as [|y l IH]; [done|]. simpl.
  destruct (P y); [done|apply IH].
Qed.

Lemma existsb_find {A} (P : A → bool) (l : list A) :
  existsb P l = bool_decide (is_Some (find P l)).
Proof.
  induction l as [|x l IH]; [done|].
  cbn [existsb find]. by destruct (P x).
Qed.

End LedgerMore.

(** X1.  [create_payment] fails exactly when the invoice id is already in
    the table.  When it succeeds, looking the id up returns the inserted
    row with status [pending] and the creation time, the users and the
    lookups of every other id are as before. *)
Theorem create_payment_then_lookup {M : Type} `{Money M}
    (now uid : Z) (method : string) (a f t : M) (inv : string) (exp : Z)
    (asset : option string) (mid cid : option Z) (payload : option string)
    (db : DB M) :
  match create_payment now uid method a f t inv exp asset mid cid payload db
  with
  | None => is_Some (get_payment_by_invoice_id inv db)
  | Some db' =>
      get_payment_by_invoice_id inv db = None ∧
      get_payment_by_invoice_id inv db'
        = Some (Payment uid method a f t inv payload asset "pending"
                        mid cid now exp) ∧
      users db' = users db ∧
      ∀ inv', inv' ≠ inv →
        get_payment_by_invoice_id inv' db' = get_payment_by_invoice_id inv' db
  end.
Proof.
  unfold create_payment, get_payment_by_invoice_id.
  rewrite existsb_find. case_bool_decide as Hf.
  - done.
  - assert (find (λ p, bool_decide (invoice_id p = inv)) (payments db) = None)
      as Hnone.
    { destruct (find _ _) eqn:E; [|done]. destruct Hf. by eexists. }
    simpl. split_and!; [done| |done|].
    + rewrite find_app_None by done. simpl.
      by rewrite bool_decide_eq_true_2.
    + intros inv' Hne.
      destruct (find (λ p, bool_decide (invoice_id p = inv')) (payments db))
        as [q|] eqn:E.
      * by apply find_app_Some.
      * rewrite find_app_None by done. simpl.
        by rewrite bool_decide_eq_false_2.
Qed.

Lemma create_payment_then_lookup_witness :
  match create_payment 1200 8 "xrocet" 30 1 31 "INV-2" 2100 None None None
                       None (Sample.ledger "pending")
  with
  | None => False
  | Some db' =>
      status <$> get_payment_by_invoice_id "INV-2" db' = Some "pending" ∧
      get_payment_by_invoice_id "INV-1" db'
        = Some (Sample.invoice "pending") ∧
      create_payment 1300 7 "lolz" 10 1 11 "INV-2" 2200 None None None None db'
        = None
  end.
Proof.
  pose proof (create_payment_then_lookup 1200 8 "xrocet" 30 1 31 "INV-2" 2100
                None None None None (Sample.ledger "pending")) as Hw.
  destruct (create_payment 1200 8 "xrocet" 30 1 31 "INV-2" 2100 None None
              None None (Sample.ledger "pending")) as [db'|] eqn:Hc;
    [|by vm_compute in Hc].
  destruct Hw as (_ & Hnew & _ & Hold).
  split_and!.
  - by rewrite Hnew.
  - rewrite (Hold "INV-1") by discriminate. reflexivity.
  - vm_compute in Hc. injection Hc as <-. reflexivity.
Defined.



Section SettlementMore.
Context {M : Type} `{Money M}.
Implicit Types (db : DB M) (p q : payment M) (u : user M) (inv st : string).


End SettlementMore.






(** ** What the ledger operations and the reconciliation never change *)

Import Frame.

Section FrameFacts.
Context {M : Type} `{Money M}.
Implicit Types (db : DB M) (p q : payment M) (u : user M) (inv st : string).

Lemma same_rows_refl db : same_rows db db.
Proof. done. Qed.

Lemma same_rows_trans db1 db2 db3 :
  same_rows db1 db2 → same_rows db2 db3 → same_rows db1 db3.
Proof. intros [H1 H2] [H3 H4]. split; congruence. Qed.

Lemma fixed_status_map (Q : payment M → bool) st (l : list (payment M)) :
  fixed_of_payment <$> map (λ p, if Q p then set_status st p else p) l
  = fixed_of_payment <$> l.
Proof.
  induction l as [|p l IH]; [done|]. cbn [map fmap list_fmap] in *.
  rewrite IH. f_equal. by destruct (Q p), p.
Qed.

Lemma fixed_balance_map (Q : user M → bool) a (l : list (user M)) :
  fixed_of_user <$> map (λ u, if Q u then add_balance a u else u) l
  = fixed_of_user <$> l.
Proof.
  induction l as [|u l IH]; [done|]. cbn [map fmap list_fmap] in *.
  rewrite IH. f_equal. by destruct (Q u).
Qed.

Lemma update_payment_status_same_rows inv st db :
  same_rows db (update_payment_status inv st db).1.
Proof.
  unfold update_payment_status, same_rows. simpl.
  split; [apply fixed_status_map|done].
Qed.

Lemma process_successful_payment_same_rows inv db :
  same_rows db (process_successful_payment inv db).1.
Proof.
  unfold process_successful_payment.
  destruct (find _ _) as [p|]; [|done]. split; simpl.
  - apply fixed_status_map.
  - apply fixed_balance_map.
Qed.

Lemma process_single_payment_same_rows h now p db :
  same_rows db (process_single_payment h now p db).1.
Proof.
  unfold process_single_payment. case_bool_decide.
  - pose proof (update_payment_status_same_rows (invoice_id p) "expired" db).
    by destruct (update_payment_status _ _ _).
  - destruct (check_status _ _ _) as [[st|err]|]; [|done..].
    case_bool_decide; [|done].
    pose proof (process_successful_payment_same_rows (invoice_id p) db).
    by destruct (process_successful_payment _ _) as [db' [pp|]].
Qed.
End FrameFacts.

(** X5.  Neither a status update, nor a settlement, nor a reconciliation
    step, nor a whole cycle adds, removes, reorders or reassigns a row:
    every payment keeps its id, owner, method, amounts, dates and
    correlation data, and every user keeps id, name and block flag.  Only
    the status of payments and the balance of users can differ. *)
Theorem reconciliation_changes_only_status_and_balance {M : Type} `{Money M}
    (h : handlers) (enabled : string → bool) (now_db now : Z)
    (now_at : payment M → Z) (p : payment M) (inv st : string) (db : DB M) :
  same_rows db (update_payment_status inv st db).1 ∧
  same_rows db (process_successful_payment inv db).1 ∧
  same_rows db (process_single_payment h now p db).1 ∧
  same_rows db (check_pending_payments h enabled now_db now_at db).1.
Proof.
  split_and!.
  - apply update_payment_status_same_rows.
  - apply process_successful_payment_same_rows.
  - apply process_single_payment_same_rows.
  - unfold check_pending_payments.
    generalize (get_pending_payments now_db db).
    assert (same_rows db (db, @nil (event M)).1) as Hacc by done.
    revert Hacc. generalize (db, @nil (event M)).
    intros acc Hacc l. revert acc Hacc.
    induction l as [|q l IH]; intros acc Hacc; [done|].
    simpl. apply IH. destruct (enabled (payment_method q)); [|done].
    pose proof (process_single_payment_same_rows h (now_at q) q acc.1) as Hs.
    destruct (process_single_payment h (now_at q) q acc.1) as [db' evs].
    by apply (same_rows_trans _ acc.1).
Qed.

(** ** The active payment of a user *)

Section ActiveFacts.
Context {M : Type} `{Money M}.

Lemma foldl_latest (l : list (payment M)) (acc : option (payment M)) :
  match foldl latest acc l with
  | None => acc = None ∧ l = []
  | Some p =>
      (acc = Some p ∨ p ∈ l) ∧
      (∀ q, acc = Some q ∨ q ∈ l → created_at q ≤ created_at p)
  end.
Proof.
  revert acc. induction l as [|x l IH]; intros acc; simpl.
  - destruct acc as [b|]; [|done]. split; [by left|].
    intros q [[= ->]|Hq%elem_of_nil]; [lia|done].
  - specialize (IH (latest acc x)).
    destruct (foldl latest (latest acc x) l) as [p|].
    + destruct IH as [Hp Hmax]. split.
      * destruct Hp as [Hp|Hp]; [|right; by right].
        unfold latest in Hp. destruct acc as [b|].
        -- destruct (created_at b <? created_at x); simplify_eq;
             [right; by left|by left].
        -- simplify_eq. right; by left.
      * intros q [Hq|Hq].
        -- subst acc. simpl in Hmax.
           destruct (Z.ltb_spec (created_at q) (created_at x)).
           ++ pose proof (Hmax x (or_introl eq_refl)). lia.
           ++ apply Hmax. by left.
        -- apply elem_of_cons in Hq as [->|Hq]; [|apply Hmax; by right].
           destruct acc as [b|]; simpl in Hmax.
           ++ destruct (Z.ltb_spec (created_at b) (created_at x)).
              ** apply Hmax. by left.
              ** pose proof (Hmax b (or_introl eq_refl)). lia.
           ++ apply Hmax. by left.
    + destruct IH as [Hacc _]. destruct acc as [b|]; simpl in Hacc;
        [by destruct (created_at b <? created_at x)|done].
Qed.
End ActiveFacts.

Lemma get_user_active_payment_spec {M : Type} `{Money M}
    (now uid : Z) (db : DB M) :
  match get_user_active_payment now uid db with
  | None =>
      ∀ q, q ∈ payments db →
           ¬ (user_id q = uid ∧ status q = "pending" ∧ now < expires_at q)
  | Some p =>
      p ∈ payments db ∧ user_id p = uid ∧ status p = "pending" ∧
      now < expires_at p ∧
      ∀ q, q ∈ payments db → user_id q = uid → status q = "pending" →
           now < expires_at q → created_at q ≤ created_at p
  end.
Proof.
  unfold get_user_active_payment.
  pose proof (foldl_latest (List.filter (is_active now uid) (payments db)) None)
    as Hf.
  destruct (foldl latest None _) as [p|].
  - destruct Hf as [[?|Hp] Hmax]; [done|].
    apply list_elem_of_In, filter_In in Hp as [Hp Hact].
    apply bool_decide_eq_true in Hact as (? & ? & ?).
    split_and!; [by apply list_elem_of_In|done..|].
    intros q Hq ? ? ?. apply Hmax. right.
    apply list_elem_of_In, filter_In. split; [by apply list_elem_of_In|].
    by apply bool_decide_eq_true.
  - destruct Hf as [_ Hnil]. intros q Hq Hact.
    assert (In q (List.filter (is_active now uid) (payments db))) as Hin.
    { apply filter_In. split; [by apply list_elem_of_In|].
      by apply bool_decide_eq_true. }
    by rewrite Hnil in Hin.
Qed.

(** X6.  [get_user_active_payment] returns nothing exactly when the user
    has no pending payment that expires after the listing time; otherwise
    it returns one of the user's pending, unexpired payments, and none of
    them was created later. *)
Theorem active_payment_is_latest_pending {M : Type} `{Money M}
    (now uid : Z) (db : DB M) :
  match get_user_active_payment now uid db with
  | None =>
      ∀ q, q ∈ payments db →
           ¬ (user_id q = uid ∧ status q = "pending" ∧ now < expires_at q)
  | Some p =>
      p ∈ payments db ∧ user_id p = uid ∧ status p = "pending" ∧
      now < expires_at p ∧
      ∀ q, q ∈ payments db → user_id q = uid → status q = "pending" →
           now < expires_at q → created_at q ≤ created_at p
  end.
Proof. apply get_user_active_payment_spec. Qed.

(** X7.  Right after a payment has been created, its owner has an active
    payment at every time before the payment's expiry: the query that
    guards against a second outstanding invoice finds one. *)
Theorem created_payment_is_active {M : Type} `{Money M}
    (now uid : Z) (method : string) (a f t : M) (inv : string) (exp : Z)
    (asset : option string) (mid cid : option Z) (payload : option string)
    (db db' : DB M) (later : Z) :
  create_payment now uid method a f t inv exp asset mid cid payload db
    = Some db' →
  later < exp →
  is_Some (get_user_active_payment later uid db').
Proof.
  intros Hc Hlater.
  pose proof (get_user_active_payment_spec later uid db') as Ha.
  destruct (get_user_active_payment later uid db') as [p|]; [by eexists|].
  exfalso. unfold create_payment in Hc.
  destruct (existsb _ _); [done|]. injection Hc as <-.
  apply (Ha (Payment uid method a f t inv payload asset "pending"
                     mid cid now exp)).
  - simpl. apply elem_of_app. right. by left.
  - done.
Qed.

Lemma created_payment_is_active_witness :
  let db' := Db [Sample.alice; Sample.bob]
                [Sample.invoice "paid";
                 Payment 8 "xrocet" 30 1 31 "INV-2" None None "pending"
                         None None 1200 2100] in
  create_payment 1200 8 "xrocet" 30 1 31 "INV-2" 2100 None None None None
                 (Sample.ledger "paid") = Some db' ∧
  1500 < 2100 ∧
  is_Some (get_user_active_payment 1500 8 db') ∧
  get_user_active_payment 1500 7 db' = None.
Proof.
  intros db'.
  assert (create_payment 1200 8 "xrocet" 30 1 31 "INV-2" 2100 None None None
            None (Sample.ledger "paid") = Some db') as Hc by reflexivity.
  assert (1500 < 2100) as Hlt by lia.
  split_and!; [exact Hc|exact Hlt| |reflexivity].
  exact (created_payment_is_active 1200 8 "xrocet" 30 1 31 "INV-2" 2100
           None None None None (Sample.ledger "paid") db' 1500 Hc Hlt).
Defined.

(** ** Users *)

Section UserFacts.
Context {M : Type} `{Money M}.
Implicit Types (db : DB M) (u : user M).

Lemma get_user_app_other (uid : Z) (l : list (user M)) u :
  telegram_id u ≠ uid →
  find (λ x, bool_decide (telegram_id x = uid)) (l ++ [u])
  = find (λ x, bool_decide (telegram_id x = uid)) l.
Proof.
  intros Hne. induction l as [|x l IH]; simpl.
  - by rewrite bool_decide_eq_false_2.
  - by destruct (bool_decide _).
Qed.

Lemma get_user_updated (uid owner : Z) (f : user M → user M)
    (l : list (user M)) :
  (∀ u, telegram_id (f u) = telegram_id u) →
  find (λ u, bool_decide (telegram_id u = uid))
       (map (λ u, if bool_decide (telegram_id u = owner) then f u else u) l)
  = (λ u, if bool_decide (uid = owner) then f u else u)
      <$> find (λ u, bool_decide (telegram_id u = uid)) l.
Proof.
  intros Hf. induction l as [|u l IH]; [done|].
  simpl. rewrite IH.
  destruct (decide (telegram_id u = owner)) as [Ho|Ho].
  - rewrite (bool_decide_eq_true_2 _ Ho). rewrite Hf.
    destruct (decide (telegram_id u = uid)) as [Hu|Hu].
    + rewrite (bool_decide_eq_true_2 _ Hu). simpl.
      rewrite bool_decide_eq_true_2; [done|congruence].
    + by rewrite (bool_decide_eq_false_2 _ Hu).
  - rewrite (bool_decide_eq_false_2 _ Ho).
    destruct (decide (telegram_id u = uid)) as [Hu|Hu].
    + rewrite (bool_decide_eq_true_2 _ Hu). simpl.
      rewrite bool_decide_eq_false_2; [done|congruence].
    + by rewrite (bool_decide_eq_false_2 _ Hu).
Qed.
End UserFacts.

(** X8.  [get_or_create_user] returns a user that [get_user] then finds,
    and leaves the payments alone.  A user who is already there is
    returned as stored and the database is not written: in particular the
    username passed in does not replace the stored one.  A new user starts
    with the zero balance and unblocked, and the other users are found as
    before.  Calling it again, with any username, changes nothing. *)
Theorem get_or_create_user_is_idempotent {M : Type} `{Money M}
    (zero : M) (tid : Z) (name name' : string) (db : DB M) :
  let '(db1, u1) := get_or_create_user zero tid name db in
  get_user tid db1 = Some u1 ∧
  payments db1 = payments db ∧
  get_or_create_user zero tid name' db1 = (db1, u1) ∧
  (∀ u, get_user tid db = Some u → db1 = db ∧ u1 = u) ∧
  (get_user tid db = None →
   u1 = User tid name zero false ∧
   ∀ tid', tid' ≠ tid → get_user tid' db1 = get_user tid' db).
Proof.
  unfold get_or_create_user.
  destruct (get_user tid db) as [u|] eqn:Hu.
  - rewrite Hu. split_and!; try done. by intros u' [= ->].
  - assert (get_user tid (Db (users db ++ [User tid name zero false])
                             (payments db))
            = Some (User tid name zero false)) as Hnew.
    { unfold get_user in *. simpl. rewrite find_app_None by done.
      simpl. by rewrite bool_decide_eq_true_2. }
    rewrite Hnew. split_and!; try done.
    intros _. split; [done|]. intros tid' Hne.
    unfold get_user. simpl. by apply get_user_app_other.
Qed.

Lemma get_or_create_user_is_idempotent_witness :
  get_user 7 (Sample.ledger "pending") = Some Sample.alice ∧
  get_or_create_user 0 7 "alice_renamed" (Sample.ledger "pending")
    = (Sample.ledger "pending", Sample.alice) ∧
  get_user 9 (Sample.ledger "pending") = None ∧
  (get_or_create_user 0 9 "carol" (Sample.ledger "pending")).2
    = User 9 "carol" 0 false.
Proof.
  pose proof (get_or_create_user_is_idempotent 0 7 "alice_renamed" "x"
                (Sample.ledger "pending")) as Hold.
  pose proof (get_or_create_user_is_idempotent 0 9 "carol" "x"
                (Sample.ledger "pending")) as Hnew.
  destruct (get_or_create_user 0 7 "alice_renamed" (Sample.ledger "pending"))
    as [db1 u1].
  destruct (get_or_create_user 0 9 "carol" (Sample.ledger "pending"))
    as [db2 u2].
  destruct Hold as (_ & _ & _ & Hsame & _).
  destruct Hnew as (_ & _ & _ & _ & Hfresh).
  destruct (Hsame Sample.alice eq_refl) as [-> ->].
  destruct (Hfresh eq_refl) as [-> _].
  by split_and!.
Defined.

(** X9.  [update_user_balance] adds for the operation ['add'] and subtracts
    for every other operation string; it changes the balance of that user
    only.  In exact arithmetic adding an amount and then applying any other
    operation with the same amount restores the database. *)
Theorem update_user_balance_add_or_subtract {M : Type} `{Money M}
    (msub : M → M → M) (uid : Z) (a : M) (operation : string) (db : DB M) :
  (∀ uid',
     balance <$> get_user uid' (update_user_balance msub uid a operation db)
     = (λ b, if bool_decide (uid' = uid)
             then (if bool_decide (operation = "add")
                   then madd b a else msub b a)
             else b) <$> (balance <$> get_user uid' db)) ∧
  payments (update_user_balance msub uid a operation db) = payments db ∧
  (operation ≠ "add" →
   ∀ (dbz : DB Z) (z : Z),
     update_user_balance Z.sub uid z operation
       (update_user_balance Z.sub uid z "add" dbz) = dbz).
Proof.
  split_and!.
  - intros uid'. unfold update_user_balance, get_user. simpl.
    rewrite (get_user_updated uid' uid
               (λ u, User (telegram_id u) (username u)
                          ((if bool_decide (operation = "add")
                            then madd else msub) (balance u) a)
                          (is_blocked u))) by done.
    destruct (find _ (users db)) as [u|]; [|done]. simpl.
    by repeat case_bool_decide.
  - done.
  - intros Hop dbz z. unfold update_user_balance.
    rewrite (bool_decide_eq_false_2 _ Hop), bool_decide_eq_true_2 by done.
    destruct dbz as [us ps]. simpl. f_equal.
    rewrite map_map. rewrite <- (map_id us) at 2. apply map_ext.
    intros u. destruct (decide (telegram_id u = uid)) as [Hu|Hu].
    + rewrite (bool_decide_eq_true_2 _ Hu). simpl.
      rewrite (bool_decide_eq_true_2 _ Hu).
      destruct u as [t n b k]. simpl. f_equal. unfold madd, Z_money. lia.
    + by rewrite !(bool_decide_eq_false_2 _ Hu).
Qed.

Lemma update_user_balance_add_or_subtract_witness :
  "ADD" ≠ "add" ∧
  balance <$> get_user 7 (update_user_balance Z.sub 7 30 "ADD"
                            (Sample.ledger "pending")) = Some 20 ∧
  update_user_balance Z.sub 7 30 "ADD"
    (update_user_balance Z.sub 7 30 "add" (Sample.ledger "pending"))
  = Sample.ledger "pending".
Proof.
  assert ("ADD" ≠ "add") as Hop by discriminate.
  destruct (update_user_balance_add_or_subtract Z.sub 7 30 "ADD"
              (Sample.ledger "pending")) as (Hbal & _ & Hback).
  split_and!; [exact Hop| |exact (Hback Hop (Sample.ledger "pending") 30)].
  rewrite Hbal. reflexivity.
Defined.

(** X10.  After [update_user_block_status], [is_user_blocked] answers the
    flag that was written when the user exists, and [false] when there is
    no such user (nothing is created); other users, balances and payments
    are untouched. *)
Theorem block_status_round_trip {M : Type} `{Money M}
    (uid : Z) (flag : bool) (db : DB M) :
  is_user_blocked uid (update_user_block_status uid flag db)
    = (if get_user uid db is Some _ then flag else false) ∧
  (∀ uid', uid' ≠ uid →
     get_user uid' (update_user_block_status uid flag db) = get_user uid' db) ∧
  (∀ uid', balance <$> get_user uid' (update_user_block_status uid flag db)
           = balance <$> get_user uid' db) ∧
  payments (update_user_block_status uid flag db) = payments db.
Proof.
  assert (∀ uid',
    get_user uid' (update_user_block_status uid flag db)
    = (λ u, if bool_decide (uid' = uid)
            then User (telegram_id u) (username u) (balance u) flag else u)
        <$> get_user uid' db) as Hget.
  { intros uid'. unfold update_user_block_status, get_user. simpl.
    by rewrite (get_user_updated uid' uid
                  (λ u, User (telegram_id u) (username u) (balance u) flag)). }
  split_and!.
  - unfold is_user_blocked. rewrite Hget.
    destruct (get_user uid db) as [u|]; [|done]. simpl.
    by rewrite bool_decide_eq_true_2.
  - intros uid' Hne. rewrite Hget.
    destruct (get_user uid' db) as [u|]; [|done]. simpl.
    by rewrite bool_decide_eq_false_2.
  - intros uid'. rewrite Hget.
    destruct (get_user uid' db) as [u|]; [|done]. simpl.
    by case_bool_decide.
  - done.
Qed.

Lemma block_status_round_trip_witness :
  9 ≠ 7 ∧
  is_user_blocked 7 (update_user_block_status 7 true (Sample.ledger "pending"))
    = true ∧
  is_user_blocked 9 (update_user_block_status 9 true (Sample.ledger "pending"))
    = false ∧
  get_user 9 (update_user_block_status 7 true (Sample.ledger "pending"))
    = get_user 9 (Sample.ledger "pending").
Proof.
  destruct (block_status_round_trip 7 true (Sample.ledger "pending"))
    as (H7 & Hother & _).
  destruct (block_status_round_trip 9 true (Sample.ledger "pending"))
    as (H9 & _).
  assert (9 ≠ 7) as Hne by lia.
  split_and!; [exact Hne|exact H7|exact H9|exact (Hother 9 Hne)].
Defined.

(** ** The reconciliation step and cycle, continued *)

Import Reconciliation.

Section StepFacts.
Context {M : Type} `{Money M}.
Implicit Types (db : DB M) (p q : payment M) (h : handlers).

Lemma process_single_payment_unexpired h now p db :
  ¬ expires_at p < now →
  process_single_payment h now p db
  = match check_status h (payment_method p) (correlation_key p) with
    | None => (db, [])
    | Some (Failure err) =>
        (db, [Checked (payment_method p) (correlation_key p) (Failure err)])
    | Some (Success st) =>
        if bool_decide (st = "paid") then
          match process_successful_payment (invoice_id p) db with
          | (db', Some pp) =>
              (db', [Checked (payment_method p) (correlation_key p)
                             (Success st);
                     NotifiedSuccess (user_id pp) (amount pp) (invoice_id p);
                     NotifiedAdmin pp])
          | (db', None) =>
              (db', [Checked (payment_method p) (correlation_key p)
                             (Success st)])
          end
        else (db, [Checked (payment_method p) (correlation_key p)
                           (Success st)])
    end.
Proof.
  intros Hexp. unfold process_single_payment, correlation_key.
  rewrite bool_decide_eq_false_2 by done.
  by destruct (check_status _ _ _) as [[st|err]|].
Qed.

Lemma process_single_payment_not_paid h now p db :
  ¬ expires_at p < now →
  check_status h (payment_method p) (correlation_key p)
    ≠ Some (Success "paid") →
  (process_single_payment h now p db).1 = db.
Proof.
  intros Hexp Hnp. rewrite process_single_payment_unexpired by done.
  destruct (check_status _ _ _) as [[st|err]|]; [|done..].
  case_bool_decide as Hst; [|done]. by subst st.
Qed.

Lemma check_pending_payments_not_paid h enabled now_db now_at db :
  (∀ p, p ∈ get_pending_payments now_db db →
        enabled (payment_method p) = true →
        ¬ expires_at p < now_at p ∧
        check_status h (payment_method p) (correlation_key p)
          ≠ Some (Success "paid")) →
  (check_pending_payments h enabled now_db now_at db).1 = db.
Proof.
  unfold check_pending_payments.
  generalize (@nil (event M)). generalize (get_pending_payments now_db db).
  intros l. induction l as [|p l IH]; intros events Hall; [done|].
  simpl. destruct (enabled (payment_method p)) eqn:Hen.
  - destruct (Hall p ltac:(by left) Hen) as [Hexp Hnp].
    pose proof (process_single_payment_not_paid h (now_at p) p db Hexp Hnp)
      as Hstep.
    destruct (process_single_payment h (now_at p) p db) as [db' evs].
    simpl in Hstep. subst db'. apply IH. intros q Hq. apply Hall. by right.
  - apply IH. intros q Hq. apply Hall. by right.
Qed.
End StepFacts.

(** X11.  A step on a payment that has not expired changes the ledger only
    if the payment's gateway answered [paid] and the invoice was still
    pending: a [pending] or [expired] answer, any other status, a failure
    and an unknown payment method all leave the database as it was. *)
Theorem unexpired_step_changes_ledger_only_when_paid {M : Type} `{Money M}
    (h : handlers) (now : Z) (p : payment M) (db : DB M) :
  ¬ expires_at p < now →
  (process_single_payment h now p db).1 ≠ db →
  check_status h (payment_method p) (correlation_key p)
    = Some (Success "paid") ∧
  is_Some (find (is_pending (invoice_id p)) (payments db)).
Proof.
  intros Hexp Hch. split.
  - destruct (check_status h (payment_method p) (correlation_key p))
      as [[st|err]|] eqn:Hc.
    + destruct (decide (st = "paid")) as [->|Hst]; [done|].
      destruct Hch. apply process_single_payment_not_paid; [done|].
      rewrite Hc. by intros [= ->].
    + destruct Hch. apply process_single_payment_not_paid; [done|].
      by rewrite Hc.
    + destruct Hch. apply process_single_payment_not_paid; [done|].
      by rewrite Hc.
  - destruct (find _ _) as [pp|] eqn:Hf; [by eexists|].
    destruct Hch. rewrite process_single_payment_unexpired by done.
    rewrite (process_not_pending _ _ Hf).
    destruct (check_status _ _ _) as [[st|err]|]; [|done..].
    by case_bool_decide.
Qed.

Lemma unexpired_step_changes_ledger_only_when_paid_witness :
  ¬ expires_at (Sample.invoice "pending") < 1500 ∧
  (process_single_payment Sample.all_paid 1500 (Sample.invoice "pending")
                          (Sample.ledger "pending")).1
    ≠ Sample.ledger "pending" ∧
  check_status Sample.all_paid "lolz" "INV-1" = Some (Success "paid").
Proof.
  assert (¬ expires_at (Sample.invoice "pending") < 1500) as Hexp
    by (vm_compute; discriminate).
  assert ((process_single_payment Sample.all_paid 1500
             (Sample.invoice "pending") (Sample.ledger "pending")).1
          ≠ Sample.ledger "pending") as Hch by (vm_compute; discriminate).
  split_and!; [exact Hexp|exact Hch|].
  exact (proj1 (unexpired_step_changes_ledger_only_when_paid Sample.all_paid
                  1500 (Sample.invoice "pending") (Sample.ledger "pending")
                  Hexp Hch)).
Defined.

Section ConnectionStepFacts.
Context {M : Type} `{Money M}.
Implicit Types (c : Connection.connection M) (p q : payment M) (h : handlers).

Lemma stateful_step_expired h now p c :
  expires_at p < now →
  Connection.process_single_payment h now p c
  = (Connection.Conn
       (update_payment_status (invoice_id p) "expired"
                              (Connection.tables c)).1 false,
     if (update_payment_status (invoice_id p) "expired"
                               (Connection.tables c)).2
     then [NotifiedExpired (user_id p) (invoice_id p)] else []).
Proof.
  intros Hexp. unfold Connection.process_single_payment.
  rewrite bool_decide_eq_true_2 by done.
  by rewrite update_payment_status_commits.
Qed.

Lemma stateful_step_unexpired h now p c :
  ¬ expires_at p < now →
  Connection.process_single_payment h now p c
  = match check_status h (payment_method p) (correlation_key p) with
    | None => (c, [])
    | Some (Failure err) =>
        (c, [Checked (payment_method p) (correlation_key p) (Failure err)])
    | Some (Success st) =>
        if bool_decide (st = "paid") then
          match Connection.process_successful_payment (invoice_id p) c with
          | (c', Connection.Returns (Some pp)) =>
              (c', [Checked (payment_method p) (correlation_key p)
                            (Success st);
                    NotifiedSuccess (user_id pp) (amount pp) (invoice_id p);
                    NotifiedAdmin pp])
          | (c', _) =>
              (c', [Checked (payment_method p) (correlation_key p)
                            (Success st)])
          end
        else (c, [Checked (payment_method p) (correlation_key p)
                          (Success st)])
    end.
Proof.
  intros Hexp. unfold Connection.process_single_payment, correlation_key.
  rewrite bool_decide_eq_false_2 by done.
  destruct (check_status _ _ _) as [[st|err]|]; [|done..].
  case_bool_decide; [|done].
  by destruct (Connection.process_successful_payment _ _) as [c' [[pp|]|]].
Qed.
End ConnectionStepFacts.

(** X12.  On a connection without an open transaction, when the gateway
    of an unexpired, pending payment answers [paid], the step settles the
    invoice, commits, and emits the check, the notification of the owner
    with the credited amount, and the notification of the operators, in
    that order.  A later step on the same payment for which the gateway
    again answers [paid] changes no row and notifies nobody: a payment
    observed paid twice is credited and announced once.  That later step
    returns with a transaction open, and while it stays open a step whose
    gateway answers [paid] settles nothing, whatever its payment: the
    settlement raises, the step catches the exception, and only the check
    is made. *)
Theorem paid_answer_settles_and_notifies_once {M : Type} `{Money M}
    (h : handlers) (now now' : Z) (p pp : payment M)
    (c : Connection.connection M) :
  Connection.in_transaction c = false →
  ¬ expires_at p < now →
  ¬ expires_at p < now' →
  check_status h (payment_method p) (correlation_key p)
    = Some (Success "paid") →
  find (is_pending (invoice_id p)) (payments (Connection.tables c))
    = Some pp →
  let '(c1, events1) := Connection.process_single_payment h now p c in
  let '(c2, events2) := Connection.process_single_payment h now' p c1 in
  Connection.tables c1
    = (process_successful_payment (invoice_id p) (Connection.tables c)).1 ∧
  Connection.in_transaction c1 = false ∧
  events1 = [Checked (payment_method p) (correlation_key p) (Success "paid");
             NotifiedSuccess (user_id pp) (amount pp) (invoice_id p);
             NotifiedAdmin pp] ∧
  Connection.tables c2 = Connection.tables c1 ∧
  events2 = [Checked (payment_method p) (correlation_key p)
                     (Success "paid")] ∧
  Connection.in_transaction c2 = true ∧
  ∀ (q : payment M) (later : Z),
    ¬ expires_at q < later →
    check_status h (payment_method q) (correlation_key q)
      = Some (Success "paid") →
    Connection.process_single_payment h later q c2
    = (c2, [Checked (payment_method q) (correlation_key q)
                    (Success "paid")]).
Proof.
  intros Hclean Hexp Hexp' Hpaid Hpp.
  rewrite (stateful_step_unexpired _ _ _ _ Hexp).
  rewrite Hpaid, bool_decide_eq_true_2 by done.
  rewrite (settlement_without_transaction _ _ Hclean).
  rewrite (process_pending _ _ _ Hpp).
  rewrite (stateful_step_unexpired _ _ _ _ Hexp').
  rewrite Hpaid, bool_decide_eq_true_2 by done.
  rewrite settlement_without_transaction by done.
  cbn [Connection.tables].
  rewrite process_not_pending by apply settled_not_pending.
  split_and!; [done..|].
  intros q later Hq Hqpaid.
  rewrite (stateful_step_unexpired _ _ _ _ Hq).
  rewrite Hqpaid, bool_decide_eq_true_2 by done.
  by rewrite settlement_on_open_transaction.
Qed.

Lemma paid_answer_settles_and_notifies_once_witness :
  let c := Connection.Conn (Sample.ledger "pending") false in
  let settled := Db [User 7 "alice" 150 false; Sample.bob]
                    [Sample.invoice "paid"] in
  ¬ expires_at (Sample.invoice "pending") < 1500 ∧
  ¬ expires_at (Sample.invoice "pending") < 1515 ∧
  Connection.process_single_payment Sample.all_paid 1500
    (Sample.invoice "pending") c
  = (Connection.Conn settled false,
     [Checked "lolz" "INV-1" (Success "paid");
      NotifiedSuccess 7 100 "INV-1";
      NotifiedAdmin (Sample.invoice "pending")]) ∧
  Connection.process_single_payment Sample.all_paid 1515
    (Sample.invoice "pending") (Connection.Conn settled false)
  = (Connection.Conn settled true,
     [Checked "lolz" "INV-1" (Success "paid")]).
Proof.
  intros c settled.
  assert (¬ expires_at (Sample.invoice "pending") < 1500) as H1
    by (vm_compute; discriminate).
  assert (¬ expires_at (Sample.invoice "pending") < 1515) as H2
    by (vm_compute; discriminate).
  pose proof (paid_answer_settles_and_notifies_once Sample.all_paid 1500 1515
                (Sample.invoice "pending") (Sample.invoice "pending")
                c eq_refl H1 H2 eq_refl eq_refl) as Hw.
  destruct (Connection.process_single_payment Sample.all_paid 1500
              (Sample.invoice "pending") c) as [[db1 tx1] ev1].
  destruct (Connection.process_single_payment Sample.all_paid 1515
              (Sample.invoice "pending") (Connection.Conn db1 tx1))
    as [[db2 tx2] ev2] eqn:Hsecond.
  destruct Hw as (Hdb1 & Htx1 & Hev1 & Hdb2 & Hev2 & Htx2 & _).
  cbn [Connection.tables Connection.in_transaction] in *.
  subst db1 tx1 ev1 db2 ev2 tx2.
  split_and!; [exact H1|exact H2|reflexivity|exact Hsecond].
Defined.

(** X23.  The step with the connection's transaction state and the step
    on the tables alone agree whenever no transaction is open when the step
    starts, and whenever the payment has expired (expiring commits, which
    also closes an open transaction).  On an unexpired payment with a
    transaction open the step leaves the connection as it is and makes at
    most the status check: what the step on the tables would have settled
    and announced is not settled and not announced. *)
Theorem stateful_step_agrees_unless_transaction_open {M : Type} `{Money M}
    (h : handlers) (now : Z) (p : payment M) (c : Connection.connection M) :
  let stateless := process_single_payment h now p (Connection.tables c) in
  let stateful := Connection.process_single_payment h now p c in
  (Connection.in_transaction c = false ∨ expires_at p < now →
   Connection.tables stateful.1 = stateless.1 ∧ stateful.2 = stateless.2) ∧
  (expires_at p < now → Connection.in_transaction stateful.1 = false) ∧
  (Connection.in_transaction c = true → ¬ expires_at p < now →
   stateful.1 = c ∧
   stateful.2
   = List.filter (λ e, match e with Checked _ _ _ => true | _ => false end)
                 stateless.2).
Proof.
  intros stateless stateful. subst stateless stateful.
  destruct (decide (expires_at p < now)) as [Hexp|Hexp].
  - rewrite stateful_step_expired, process_single_payment_expired by done.
    split_and!; [done|done|]. by intros _ Hno.
  - rewrite stateful_step_unexpired, process_single_payment_unexpired by done.
    split_and!.
    + intros [Hclean|Hexp']; [|done].
      destruct (check_status _ _ _) as [[st|err]|]; [|done..].
      case_bool_decide; [|done].
      rewrite (settlement_without_transaction _ _ Hclean).
      by destruct (process_successful_payment _ _) as [db' [pp|]].
    + done.
    + intros Hopen _.
      destruct (check_status _ _ _) as [[st|err]|]; [|done..].
      case_bool_decide; [|done].
      rewrite (settlement_on_open_transaction _ _ Hopen).
      by destruct (process_successful_payment _ _) as [db' [pp|]].
Qed.

Lemma stateful_step_agrees_unless_transaction_open_witness :
  let c := Connection.Conn (Sample.ledger "pending") true in
  Connection.in_transaction c = true ∧
  ¬ expires_at (Sample.invoice "pending") < 1500 ∧
  (process_single_payment Sample.all_paid 1500 (Sample.invoice "pending")
                          (Sample.ledger "pending")).1
  = Db [User 7 "alice" 150 false; Sample.bob] [Sample.invoice "paid"] ∧
  Connection.process_single_payment Sample.all_paid 1500
    (Sample.invoice "pending") c
  = (c, [Checked "lolz" "INV-1" (Success "paid")]).
Proof.
  intros c.
  assert (¬ expires_at (Sample.invoice "pending") < 1500) as Hexp
    by (vm_compute; discriminate).
  split_and!; [reflexivity|exact Hexp|reflexivity|].
  destruct (stateful_step_agrees_unless_transaction_open Sample.all_paid 1500
              (Sample.invoice "pending") c) as (_ & _ & Hopen).
  destruct (Hopen eq_refl Hexp) as [Hc Hev].
  destruct (Connection.process_single_payment Sample.all_paid 1500
              (Sample.invoice "pending") c) as [c' ev].
  cbn [fst snd] in Hc, Hev. by subst c' ev.
Defined.

(** X13.  A cycle processes only payments whose gateway is enabled: when
    no listed payment has an enabled gateway the cycle changes nothing and
    does nothing, whatever the clock says, so that payments of a disabled
    gateway are neither checked nor expired. *)
Theorem disabled_gateways_are_skipped {M : Type} `{Money M}
    (h : handlers) (enabled : string → bool) (now_db : Z)
    (now_at : payment M → Z) (db : DB M) :
  (∀ p, p ∈ get_pending_payments now_db db →
        enabled (payment_method p) = false) →
  check_pending_payments h enabled now_db now_at db = (db, []).
Proof.
  unfold check_pending_payments.
  generalize (get_pending_payments now_db db). intros l.
  generalize (db, @nil (event M)). revert l.
  induction l as [|p l IH]; intros acc Hall; [done|].
  simpl. rewrite (Hall p) by (by left).
  apply IH. intros q Hq. apply Hall. by right.
Qed.

Lemma disabled_gateways_are_skipped_witness :
  (∀ p, p ∈ get_pending_payments 1000 (Sample.ledger "pending") →
        (λ m : string, bool_decide (m = "xrocet")) (payment_method p) = false) ∧
  check_pending_payments Sample.all_paid (λ m, bool_decide (m = "xrocet"))
    1000 (λ _, 5000) (Sample.ledger "pending")
  = (Sample.ledger "pending", []).
Proof.
  assert (∀ p, p ∈ get_pending_payments 1000 (Sample.ledger "pending") →
            (λ m : string, bool_decide (m = "xrocet")) (payment_method p)
            = false) as Hoff.
  { intros p Hp. change (get_pending_payments 1000 (Sample.ledger "pending"))
      with [Sample.invoice "pending"] in Hp.
    by apply list_elem_of_singleton in Hp as ->. }
  split; [exact Hoff|].
  exact (disabled_gateways_are_skipped Sample.all_paid _ 1000 (λ _, 5000)
           (Sample.ledger "pending") Hoff).
Defined.

(** X14.  A step asks at most one question, and asks it of the payment's
    own gateway about the payment's correlation key: the payload id for a
    cryptobot payment that has a non-empty one, the invoice id in every
    other case.  The recorded answer is the one that gateway gave. *)
Theorem step_asks_own_gateway_once {M : Type} `{Money M}
    (h : handlers) (now : Z) (p : payment M) (db : DB M) :
  let events := (process_single_payment h now p db).2 in
  (∀ m id r, Checked m id r ∈ events →
     m = payment_method p ∧ id = correlation_key p ∧
     check_status h m id = Some r) ∧
  (length (List.filter
             (λ e, match e with Checked _ _ _ => true | _ => false end)
             events) ≤ 1)%nat ∧
  (payment_method p = "cryptobot" →
   ∀ payload, payload_id p = Some payload → payload ≠ "" →
              correlation_key p = payload) ∧
  (payment_method p ≠ "cryptobot" ∨ payload_id p = None
                                  ∨ payload_id p = Some "" →
   correlation_key p = invoice_id p).
Proof.
  split_and!.
  - destruct (decide (expires_at p < now)) as [Hexp|Hexp].
    + rewrite process_single_payment_expired by done.
      generalize ((update_payment_status (invoice_id p) "expired" db).2).
      intros changed m id r Hin. destruct changed; simpl in Hin.
      * by apply list_elem_of_singleton in Hin.
      * by apply elem_of_nil in Hin.
    + rewrite process_single_payment_unexpired by done.
      destruct (check_status _ _ _) as [[st|err]|] eqn:Hc.
      * assert (∀ m id r,
          (Checked m id r : event M)
            ∈ [Checked (payment_method p) (correlation_key p) (Success st)] →
          m = payment_method p ∧ id = correlation_key p
          ∧ check_status h m id = Some r) as Hone.
        { intros m id r Hin. apply list_elem_of_singleton in Hin.
          by injection Hin as -> -> ->. }
        case_bool_decide; [|exact Hone].
        destruct (process_successful_payment _ _) as [db' [pp|]];
          [|exact Hone].
        simpl. intros m id r Hin.
        apply elem_of_cons in Hin as [Hin|Hin]; [apply Hone; by rewrite Hin; left|].
        repeat (apply elem_of_cons in Hin as [[=]|Hin]).
        by apply elem_of_nil in Hin.
      * simpl. intros m id r Hin. apply list_elem_of_singleton in Hin.
        by injection Hin as -> -> ->.
      * simpl. intros m id r Hin. by apply elem_of_nil in Hin.
  - destruct (decide (expires_at p < now)) as [Hexp|Hexp].
    + rewrite process_single_payment_expired by done.
      generalize ((update_payment_status (invoice_id p) "expired" db).2).
      intros changed. destruct changed; simpl; lia.
    + rewrite process_single_payment_unexpired by done.
      destruct (check_status _ _ _) as [[st|err]|]; [|simpl; lia..].
      case_bool_decide; [|simpl; lia].
      destruct (process_successful_payment _ _) as [db' [pp|]]; simpl; lia.
  - intros Hm payload Hp Hne. unfold correlation_key.
    rewrite Hm, Hp. simpl. by rewrite bool_decide_eq_false_2.
  - intros Hcase. unfold correlation_key.
    destruct Hcase as [Hm|[Hp|Hp]].
    + by rewrite bool_decide_eq_false_2.
    + rewrite Hp. simpl. by rewrite andb_false_r.
    + rewrite Hp. simpl. by rewrite andb_false_r.
Qed.


Lemma step_asks_own_gateway_once_witness :
  let p := Payment 7 "cryptobot" 100 5 105 "991" (Some "cryptobot_ab12")
                   None "pending" None None 1000 1900 in
  payment_method p = "cryptobot" ∧
  payload_id p = Some "cryptobot_ab12" ∧
  "cryptobot_ab12" ≠ "" ∧
  correlation_key p = "cryptobot_ab12" ∧
  (process_single_payment Sample.all_paid 1500 p (Db [Sample.alice] [p])).2
  = [Checked "cryptobot" "cryptobot_ab12" (Success "paid");
     NotifiedSuccess 7 100 "991"; NotifiedAdmin p].
Proof.
  intros p.
  assert ("cryptobot_ab12" ≠ "") as Hne by discriminate.
  destruct (step_asks_own_gateway_once Sample.all_paid 1500 p
              (Db [Sample.alice] [p])) as (_ & _ & Hkey & _).
  split_and!; [reflexivity|reflexivity|exact Hne| |by vm_compute].
  exact (Hkey eq_refl "cryptobot_ab12" eq_refl Hne).
Defined.

(** X15.  While the providers are out of reach (every request to Lolz,
    xRocket and CrystalPay raises or comes back with a status other than
    200) and CryptoBot does not answer [paid], a whole cycle leaves the
    ledger exactly as it was, provided no listed payment of an enabled
    gateway has expired by the time it is processed: an outage is never
    taken for a payment or for a refusal. *)
Theorem outage_changes_nothing {M : Type} `{Money M}
    (net : network) (cryptobot : string → status_result)
    (enabled : string → bool) (now_db : Z) (now_at : payment M → Z)
    (db : DB M) :
  (∀ id, unanswered (lolz_invoice net id) ∧
         unanswered (xrocet_invoice net id) ∧
         unanswered (crystalpay_info net id)) →
  (∀ id, cryptobot id ≠ Success "paid") →
  (∀ p, p ∈ get_pending_payments now_db db →
        enabled (payment_method p) = true → ¬ expires_at p < now_at p) →
  (check_pending_payments (handlers_on net cryptobot) enabled now_db now_at
                          db).1 = db.
Proof.
  intros Hnet Hcb Hexp.
  apply check_pending_payments_not_paid. intros p Hp Hen.
  split; [by apply Hexp|].
  destruct (Hnet (correlation_key p)) as (Hl & Hx & Hc).
  unfold check_status, handlers_on. simpl.
  repeat case_bool_decide; try done.
  - unfold lolz_check_payment_status.
    destruct (lolz_invoice net _) as [|code body]; [done|].
    simpl in Hl. apply Z.eqb_neq in Hl. rewrite Hl. by destruct (code =? 404).
  - intros [= Heq]. by apply (Hcb (correlation_key p)).
  - unfold xrocet_check_payment.
    destruct (xrocet_invoice net _) as [|code body]; [done|].
    simpl in Hx. apply Z.eqb_neq in Hx. by rewrite Hx.
  - unfold crystalpay_check_payment_status.
    destruct (crystalpay_info net _) as [|code body]; [done|].
    simpl in Hc. apply Z.eqb_neq in Hc. by rewrite Hc.
Qed.

Lemma outage_changes_nothing_witness :
  (∀ id, unanswered (lolz_invoice Sample.network_down id) ∧
         unanswered (xrocet_invoice Sample.network_down id) ∧
         unanswered (crystalpay_info Sample.network_down id)) ∧
  (check_pending_payments
     (handlers_on Sample.network_down (λ _, Failure ConnectionError))
     (λ _, true) 1000 (λ _, 1500) (Sample.ledger "pending")).1
  = Sample.ledger "pending".
Proof.
  assert (∀ id, unanswered (lolz_invoice Sample.network_down id) ∧
                unanswered (xrocet_invoice Sample.network_down id) ∧
                unanswered (crystalpay_info Sample.network_down id)) as Hnet
    by done.
  split; [exact Hnet|].
  apply (outage_changes_nothing Sample.network_down
           (λ _, Failure ConnectionError) (λ _, true) 1000 (λ _, 1500)
           (Sample.ledger "pending") Hnet).
  - done.
  - intros p Hp _.
    change (get_pending_payments 1000 (Sample.ledger "pending"))
      with [Sample.invoice "pending"] in Hp.
    apply list_elem_of_singleton in Hp as ->. vm_compute. discriminate.
Defined.

(** ** Robokassa: payment URL and callback handler *)

Import RobokassaRest SampleFloat.

(** [float] and [str] as CPython gives them. *)
Example float_reads :
  float_of_str
    <$> ["100"; "100.0"; "1e2"; " 12 "; "-5"; "100.000000"; "1_0"; "١٢";
         "abc"; ""; "1__0"; "0x10"; "1e"; "1 2"]
  = [Some (Whole 100); Some (Whole 100); Some (Whole 100); Some (Whole 12);
     Some (Whole (-5)); Some (Whole 100); Some (Whole 10); Some (Whole 12);
     None; None; None; None; None; None].
Proof. by vm_compute. Qed.

Example float_rounds :
  float_of_str "9007199254740993" = Some (Whole 9007199254740992) ∧
  float_of_str "0.1" = Some (Finite false 3602879701896397 (-55)) ∧
  float_of_str "100.00000000000000001" = Some (Whole 100) ∧
  float_of_str "1e400" = Some (Infinity false) ∧
  float_of_str "-1e-400" = Some (Finite true 0 0).
Proof. by vm_compute. Qed.

Example str_writes :
  str <$> [Whole 100; Whole 0; Finite true 0 0;
           Finite false 3602879701896397 (-55); Whole (10 ^ 16);
           Whole 1234567; Finite false 1 (-1074); Finite false 3 (-1);
           Infinity true; NaN]
  = ["100.0"; "0.0"; "-0.0"; "0.1"; "1e+16"; "1234567.0"; "5e-324"; "1.5";
     "-inf"; "nan"].
Proof. by vm_compute. Qed.

Example quote_plus_sample :
  quote_plus "Top up a&b=c ~x*/" = "Top+up+a%26b%3Dc+~x%2A%2F".
Proof. by vm_compute. Qed.

Example get_payment_url_sample :
  get_payment_url shop (Whole 100) "42" "Top up"
                  "RUB" None 0 (Some [("user", "alice smith")])
  = Some ("https://auth.robokassa.ru/Merchant/PaymentMethods/?"
          +:+ "MerchantLogin=shop&Sum=100.0&InvId=42&Description=Top+up"
          +:+ "&SignatureValue=406512d052a219138ae910edcec93b37"
          +:+ "&IsTest=0&Shp_user=alice+smith").
Proof. by vm_compute. Qed.


Section DictMore.
Context {V : Type}.
Implicit Types (d : dict V) (k : string) (v : V).

Lemma getitem_app_l d d' k v :
  getitem d k = Some v → getitem (d ++ d') k = Some v.
Proof.
  unfold getitem. intros Hg.
  destruct (find _ d) as [kv|] eqn:E; [|done].
  by rewrite (find_app_Some _ _ _ _ E).
Qed.

Lemma setitem_fresh d k v : k ∉ keys d → setitem d k v = d ++ [(k, v)].
Proof.
  unfold keys. induction d as [|[k' v'] d IH]; intros Hk; [done|].
  simpl in *. apply not_elem_of_cons in Hk as [Hne Hk].
  rewrite bool_decide_eq_false_2 by done. by rewrite IH.
Qed.

Lemma foldl_setitem_fresh (pre : string) (l : dict V) d :
  NoDup (keys l) →
  (∀ k, k ∈ keys l → pre +:+ k ∉ keys d) →
  foldl (λ params kv, setitem params (pre +:+ kv.1) kv.2) d l
  = d ++ ((λ kv, (pre +:+ kv.1, kv.2)) <$> l).
Proof.
  unfold keys. revert d. induction l as [|[k v] l IH]; intros d Hnd Hfresh.
  - by rewrite app_nil_r.
  - apply NoDup_cons in Hnd as [Hk Hnd]. simpl.
    rewrite setitem_fresh by (apply Hfresh; by left).
    rewrite IH; [by rewrite <- app_assoc|done|].
    intros k' Hk'. rewrite fmap_app. simpl.
    intros Hin%elem_of_app. destruct Hin as [Hin|Hin].
    + revert Hin. apply Hfresh. by right.
    + apply list_elem_of_singleton in Hin.
      apply (inj (String.app pre)) in Hin. by subst k'.
Qed.
End DictMore.

Lemma prefix_app (pre s : string) : String.prefix pre (pre +:+ s) = true.
Proof.
  induction pre as [|c pre IH]; [by destruct s|].
  simpl. by destruct (ascii_dec c c).
Qed.

Lemma prefix_split (pre s : string) :
  String.prefix pre s = true →
  pre +:+ string_drop (String.length pre) s = s.
Proof.
  revert s. induction pre as [|a pre IH]; intros s Hp; [done|].
  destruct s as [|c s]; [done|]. cbn [String.prefix] in Hp.
  destruct (ascii_dec a c) as [->|]; [|done].
  change (String c (pre +:+ string_drop (String.length pre) s) = String c s).
  f_equal. by apply IH.
Qed.

Lemma shp_params_app (d d' : dict string) :
  shp_params (d ++ d') = shp_params d ++ shp_params d'.
Proof. unfold shp_params. by rewrite List.filter_app, fmap_app. Qed.

Lemma shp_params_prefixed (l : dict string) :
  shp_params ((λ kv, ("Shp_" +:+ kv.1, kv.2)) <$> l) = l.
Proof.
  unfold shp_params. induction l as [|[k v] l IH]; [done|].
  cbn [fmap list_fmap List.filter fst snd].
  rewrite (prefix_app "Shp_" k). cbn [fmap list_fmap fst snd].
  change (string_drop 4 ("Shp_" +:+ k)) with k. f_equal. apply IH.
Qed.

(** X16.  Verification ignores the letter case of the signature it is
    given: it succeeds exactly when the signature, put in lower case, is
    the computed digest, so two signatures that differ in case only (the
    upper-case form of a digest, for one) are accepted or rejected
    together. *)
Theorem verification_ignores_letter_case {A V : Type} `{Str A, Str V}
    (m : string) (a : A) (i pw : string) (e : option (dict V))
    (sig sig' : string) :
  (verify_callback_signature m a i sig pw e = true
   ↔ lower sig = calculate_signature m a i pw e) ∧
  (lower sig = lower sig' →
   verify_callback_signature m a i sig pw e
   = verify_callback_signature m a i sig' pw e).
Proof.
  split; [apply verify_iff|].
  intros Hl. unfold verify_callback_signature. by rewrite Hl.
Qed.

Lemma verification_ignores_letter_case_witness :
  lower "26BFAFF617693F7792C86C1967C309F8"
  = lower "26bfaff617693f7792c86c1967c309f8" ∧
  verify_callback_signature "shop" 100 "42"
    "26BFAFF617693F7792C86C1967C309F8" "secret" (Some [("user", "alice")])
  = true.
Proof.
  assert (lower "26BFAFF617693F7792C86C1967C309F8"
          = lower "26bfaff617693f7792c86c1967c309f8") as Hl by reflexivity.
  split; [exact Hl|].
  rewrite (proj2 (verification_ignores_letter_case "shop" 100 "42" "secret"
                    (Some [("user", "alice")])
                    "26BFAFF617693F7792C86C1967C309F8"
                    "26bfaff617693f7792c86c1967c309f8") Hl).
  by vm_compute.
Defined.

Lemma elem_of_shp_params (request_data : dict string) (k v : string) :
  (k, v) ∈ shp_params request_data ↔ ("Shp_" +:+ k, v) ∈ request_data.
Proof.
  unfold shp_params. rewrite list_elem_of_fmap. split.
  - intros ([k0 v0] & Heq & Hin).
    apply list_elem_of_In, filter_In in Hin as [Hin Hpre].
    apply list_elem_of_In in Hin. cbn [fst snd] in Heq, Hpre.
    injection Heq as -> ->.
    pose proof (prefix_split "Shp_" k0 Hpre) as Hk.
    change (String.length "Shp_") with 4%nat in Hk.
    change (("Shp_" +:+ string_drop 4 k0, v0) ∈ request_data).
    by rewrite Hk.
  - intros Hin. exists ("Shp_" +:+ k, v). split; [done|].
    apply list_elem_of_In, filter_In. split; [by apply list_elem_of_In|].
    apply (prefix_app "Shp_" k).
Qed.

Lemma shp_params_none (request_data : dict string) :
  (∀ kv, kv ∈ request_data → String.prefix "Shp_" kv.1 = false) →
  shp_params request_data = [].
Proof.
  unfold shp_params. induction request_data as [|kv l IH]; [done|].
  intros Hno. cbn [List.filter]. rewrite (Hno kv) by (by left).
  apply IH. intros kv' Hin. apply Hno. by right.
Qed.

(** X17.  The extra parameters that [extract_callback_data] returns are
    exactly the entries of the request whose key starts with [Shp_], each
    under its key without that prefix: entries with any other key never
    get in, and a request without such keys has no extra parameters.  The
    amount is [float(0)] when the request has no [Sum], and the extraction
    raises when [float] rejects the [Sum]. *)
Theorem extracted_extra_params_are_the_prefixed_entries {A : Type}
    `{Str A, PyFloat A} (request_data : dict string) :
  (∀ data : callback_data A,
     extract_callback_data request_data = Some data →
     (∀ k v, (k, v) ∈ cb_extra_params data
             ↔ ("Shp_" +:+ k, v) ∈ request_data) ∧
     ((∀ kv, kv ∈ request_data → String.prefix "Shp_" kv.1 = false) →
      cb_extra_params data = []) ∧
     (getitem request_data "Sum" = None → cb_amount data = float_zero)) ∧
  (∀ text, getitem request_data "Sum" = Some text →
           float_of_str text = None →
           extract_callback_data (A:=A) request_data = None).
Proof.
  split.
  - intros data Hex. unfold extract_callback_data in Hex.
    destruct (getitem request_data "Sum") as [text|] eqn:Hsum.
    + destruct (float_of_str text) as [amount|]; [|done].
      injection Hex as <-. cbn [cb_extra_params cb_amount].
      split_and!; [|apply shp_params_none|done].
      intros k v. apply elem_of_shp_params.
    + injection Hex as <-. cbn [cb_extra_params cb_amount].
      split_and!; [|apply shp_params_none|done].
      intros k v. apply elem_of_shp_params.
  - intros text Hsum Hf. unfold extract_callback_data. by rewrite Hsum, Hf.
Qed.

Lemma extracted_extra_params_are_the_prefixed_entries_witness :
  extract_callback_data
    [("MerchantLogin", "shop"); ("Sum", "1e2"); ("Shp_user", "alice")]
  = Some (CallbackData (Some "shop") (Whole 100) None None
                       [("user", "alice")]) ∧
  (("user", "alice") : string * string)
  ∈ [(("user" : string), ("alice" : string))] ∧
  float_of_str (A:=float) "abc" = None ∧
  extract_callback_data (A:=float) [("Sum", "abc")] = None.
Proof.
  pose proof (extracted_extra_params_are_the_prefixed_entries (A:=float)
                [("MerchantLogin", "shop"); ("Sum", "1e2");
                 ("Shp_user", "alice")]) as [Hdata _].
  pose proof (extracted_extra_params_are_the_prefixed_entries (A:=float)
                [("Sum", "abc")]) as [_ Hraise].
  assert (extract_callback_data
            [("MerchantLogin", "shop"); ("Sum", "1e2"); ("Shp_user", "alice")]
          = Some (CallbackData (Some "shop") (Whole 100) None None
                               [("user", "alice")]))
    as Hex by (by vm_compute).
  assert (float_of_str (A:=float) "abc" = None) as Habc by (by vm_compute).
  split_and!; [exact Hex| |exact Habc|].
  - apply (proj1 (Hdata _ Hex) "user" "alice").
    do 2 (apply elem_of_cons; right). apply elem_of_cons. by left.
  - by apply (Hraise "abc").
Defined.

Section UrlFacts.
Context {A : Type} `{Str A, PyFloat A}.

Lemma url_params_split (config : RobokassaConfig) (a : A)
    (inv desc cur : string) (email : option string) (is_test : Z)
    (extra : option (dict string)) :
  distinct_keys extra →
  let sp := match extra with Some (kv :: rest) => kv :: rest | _ => [] end in
  ∃ std : dict string,
    url_params config a inv desc cur email is_test extra
    = std ++ ((λ kv, ("Shp_" +:+ kv.1, kv.2)) <$> sp) ∧
    shp_params std = [] ∧
    getitem std "MerchantLogin" = Some (merchant_login config) ∧
    getitem std "Sum" = Some (str a) ∧
    getitem std "InvId" = Some inv ∧
    getitem std "SignatureValue"
    = Some (calculate_signature (merchant_login config) a inv
                                (get_password1 config) (Some sp)).
Proof.
  intros Hd sp. unfold url_params. fold sp.
  generalize (calculate_signature (merchant_login config) a inv
                                  (get_password1 config) (Some sp)).
  intros sig.
  assert (NoDup (keys sp)) as Hsp.
  { destruct extra as [[|kv rest]|]; try apply NoDup_nil_2. exact Hd. }
  set (std := if truthy_str email then _ else _).
  assert (shp_params std = [] ∧
          getitem std "MerchantLogin" = Some (merchant_login config) ∧
          getitem std "Sum" = Some (str a) ∧
          getitem std "InvId" = Some inv ∧
          getitem std "SignatureValue" = Some sig ∧
          ∀ key, key ∈ keys std → String.prefix "Shp_" key = false)
    as (Hshp & Hm & Hs & Hi & Hg & Hkeys).
  { subst std. destruct (truthy_str email), (bool_decide (cur ≠ "RUB"));
      (split_and!; [reflexivity..|]);
      intros key Hkey; unfold keys in Hkey; cbn in Hkey;
      repeat (apply elem_of_cons in Hkey as [->|Hkey]; [reflexivity|]);
      by apply elem_of_nil in Hkey. }
  exists std. split_and!; try done.
  apply foldl_setitem_fresh; [done|].
  intros k Hk Hin. apply Hkeys in Hin.
  by rewrite (prefix_app "Shp_" k) in Hin.
Qed.
End UrlFacts.


Section CallbackFacts.
Context {A : Type} `{Str A, PyFloat A}.

Lemma extract_url_params (config : RobokassaConfig) (a : A)
    (inv desc cur : string) (email : option string) (is_test : Z)
    (extra : option (dict string)) :
  distinct_keys extra →
  float_of_str (str a) = Some a →
  extract_callback_data
    (url_params config a inv desc cur email is_test extra)
  = Some (CallbackData
            (Some (merchant_login config)) a (Some inv)
            (Some (calculate_signature (merchant_login config) a inv
                     (get_password1 config) (Some (default [] extra))))
            (default [] extra)).
Proof.
  intros Hd Hf.
  destruct (url_params_split config a inv desc cur email is_test extra Hd)
    as (std & Hsplit & Hshp & Hm & Hs & Hi & Hg).
  assert (match extra with Some (kv :: rest) => kv :: rest | _ => [] end
          = default [] extra) as Hsp by (by destruct extra as [[|kv rest]|]).
  rewrite Hsp in Hsplit, Hg. rewrite Hsplit.
  unfold extract_callback_data.
  rewrite (getitem_app_l _ _ _ _ Hs), Hf, (getitem_app_l _ _ _ _ Hm),
    (getitem_app_l _ _ _ _ Hi), (getitem_app_l _ _ _ _ Hg).
  by rewrite shp_params_app, Hshp, shp_params_prefixed.
Qed.

Lemma handle_with_None
    (process : RobokassaConfig → string → A → string → string →
               option (dict string) → bool * string)
    (config : RobokassaConfig) (request_data : dict string) :
  handle_with process config request_data = None
  ↔ (∃ text, getitem request_data "Sum" = Some text
             ∧ float_of_str (A:=A) text = None)
    ∨ getitem request_data "MerchantLogin" = None
    ∨ getitem request_data "SignatureValue" = None.
Proof.
  unfold handle_with, extract_callback_data.
  destruct (getitem request_data "Sum") as [text|];
    [destruct (float_of_str text) as [amount|] eqn:Hf|];
    cbn [cb_merchant_login cb_signature];
    destruct (getitem request_data "MerchantLogin") as [ml|],
             (getitem request_data "SignatureValue") as [sig|];
    (split;
     [intros Hn; try discriminate Hn; eauto
     |intros [(t & Ht & Hf')|[Hm|Hs]]; try done; congruence]).
Qed.
End CallbackFacts.

(** X18.  The parameters of a payment URL come back through the callback
    handler unchanged: [get_payment_url] raises exactly for an amount that
    is not positive or an empty invoice id, and otherwise encodes
    [url_params]; a request that carries those parameters is decoded by
    [extract_callback_data] into the same amount, invoice id and extra
    parameters (the [Shp_] prefix added and removed again), and
    [handle_success_callback] accepts it and answers [OK] followed by the
    invoice id.  The amount is one that [float] reads back from its [str],
    as every finite float is. *)
Theorem payment_url_parameters_pass_success_callback {A : Type}
    `{Str A, PyFloat A} (config : RobokassaConfig) (a : A)
    (inv desc cur : string) (email : option string) (is_test : Z)
    (extra : option (dict string)) :
  distinct_keys extra →
  float_of_str (str a) = Some a →
  let params := url_params config a inv desc cur email is_test extra in
  (get_payment_url config a inv desc cur email is_test extra = None
   ↔ nonpositive a = true ∨ inv = "") ∧
  (nonpositive a = false → inv ≠ "" →
   get_payment_url config a inv desc cur email is_test extra
   = Some (get_environment_url config +:+ "?" +:+ urlencode params)) ∧
  (∃ data, extract_callback_data params = Some data ∧
           cb_merchant_login data = Some (merchant_login config) ∧
           cb_amount data = a ∧
           cb_invoice_id data = Some inv ∧
           cb_extra_params data = default [] extra) ∧
  handle_success_callback config params = Some (true, "OK" +:+ inv).
Proof.
  intros Hd Hf params. split_and!.
  - unfold get_payment_url. destruct (nonpositive a); [split; [by left|done]|].
    destruct (decide (inv = "")) as [Hi|Hi].
    + rewrite (bool_decide_eq_true_2 _ Hi). split; [by right|done].
    + rewrite (bool_decide_eq_false_2 _ Hi). split; [done|by intros [?|?]].
  - intros Hpos Hi. unfold get_payment_url.
    by rewrite Hpos, (bool_decide_eq_false_2 _ Hi).
  - eexists. split; [by apply extract_url_params|]. by split_and!.
  - unfold handle_success_callback, handle_with. subst params.
    rewrite extract_url_params by done.
    cbn [cb_merchant_login cb_signature cb_amount cb_invoice_id
         cb_extra_params].
    unfold process_success_callback, verify_payment, str_optional.
    cbn [default]. by rewrite verify_own_signature.
Qed.

Lemma payment_url_parameters_pass_success_callback_witness :
  distinct_keys (Some [("user", "alice smith")]) ∧
  float_of_str (str (Whole 100)) = Some (Whole 100) ∧
  handle_success_callback shop
    (url_params shop (Whole 100) "42" "Top up" "RUB" None 0
                (Some [("user", "alice smith")]))
  = Some (true, "OK42").
Proof.
  assert (distinct_keys (Some [(("user" : string), ("alice smith" : string))]))
    as Hd by apply NoDup_singleton.
  assert (float_of_str (str (Whole 100)) = Some (Whole 100)) as Hf
    by reflexivity.
  split; [exact Hd|]. split; [exact Hf|].
  exact (proj2 (proj2 (proj2
    (payment_url_parameters_pass_success_callback shop (Whole 100) "42"
       "Top up" "RUB" None 0 (Some [("user", "alice smith")]) Hd Hf)))).
Defined.

(** X19.  Each of the three callback handlers raises, instead of answering,
    exactly when the request has a [Sum] that [float] rejects, has no
    [MerchantLogin] or has no [SignatureValue]; a request without [InvId]
    is answered, and verified under the invoice id [None]. *)
Theorem callback_without_required_field_raises {A : Type}
    `{Str A, PyFloat A} (config : RobokassaConfig)
    (request_data : dict string) :
  let raises :=
    (∃ text, getitem request_data "Sum" = Some text
             ∧ float_of_str (A:=A) text = None)
    ∨ getitem request_data "MerchantLogin" = None
    ∨ getitem request_data "SignatureValue" = None in
  (handle_success_callback (A:=A) config request_data = None ↔ raises) ∧
  (handle_fail_callback (A:=A) config request_data = None ↔ raises) ∧
  (handle_status_callback (A:=A) config request_data = None ↔ raises) ∧
  (getitem request_data "InvId" = None →
   ∀ ok msg,
     handle_success_callback (A:=A) config request_data = Some (ok, msg) →
     msg = if ok then "OKNone" else "Invalid signature").
Proof.
  intros raises. split_and!; try apply handle_with_None.
  intros Hinv ok msg.
  unfold handle_success_callback, handle_with, extract_callback_data.
  rewrite Hinv.
  destruct (match getitem request_data "Sum" with
            | Some text => float_of_str text
            | None => Some float_zero
            end) as [amount|]; [|done].
  cbn [cb_merchant_login cb_signature cb_amount cb_invoice_id
       cb_extra_params].
  destruct (getitem request_data "MerchantLogin") as [m|]; [|done].
  destruct (getitem request_data "SignatureValue") as [sig|]; [|done].
  unfold process_success_callback.
  destruct (negb _); by intros [= <- <-].
Qed.

Lemma callback_without_required_field_raises_witness :
  getitem [(("Sum" : string), ("100.0" : string)); ("InvId", "42");
           ("SignatureValue", "ab")] "MerchantLogin" = None ∧
  handle_success_callback (A:=whole) shop
    [("Sum", "100.0"); ("InvId", "42"); ("SignatureValue", "ab")] = None.
Proof.
  split; [reflexivity|].
  apply (proj1 (callback_without_required_field_raises (A:=whole) shop
                  [("Sum", "100.0"); ("InvId", "42");
                   ("SignatureValue", "ab")])).
  right. left. reflexivity.
Defined.

(** ** Cancelling a payment *)

Import Profile.

Lemma split_nonempty (sep : ascii) (s : string) :
  ∃ first others, split sep s = first :: others.
Proof.
  induction s as [|c s (first & others & IH)]; [by eexists _, _|].
  cbn [split]. destruct (bool_decide (c = sep)); [by eexists _, _|].
  rewrite IH. by eexists _, _.
Qed.

Lemma split_no_sep (sep : ascii) (s : string) :
  sep ∉ String.list_ascii_of_string s → split sep s = [s].
Proof.
  induction s as [|c s IH]; [done|]. cbn [String.list_ascii_of_string split].
  intros Hin. apply not_elem_of_cons in Hin as [Hc Hin].
  rewrite bool_decide_eq_false_2 by done. by rewrite IH.
Qed.

Lemma split_app_sep (sep : ascii) (a b : string) :
  sep ∉ String.list_ascii_of_string a →
  split sep (a +:+ String sep b) = a :: split sep b.
Proof.
  induction a as [|c a IH].
  - intros _. change (split sep (String sep b) = "" :: split sep b).
    cbn [split]. by rewrite bool_decide_eq_true_2.
  - cbn [String.list_ascii_of_string]. intros Hin.
    apply not_elem_of_cons in Hin as [Hc Hin].
    change (split sep (String c (a +:+ String sep b))
            = String c a :: split sep b).
    cbn [split]. rewrite bool_decide_eq_false_2 by done. by rewrite IH.
Qed.

Lemma split_cancel_button (invoice_id : string) :
  split "_" (cancel_button invoice_id)
  = "cancel" :: "payment" :: split "_" invoice_id.
Proof.
  change (cancel_button invoice_id)
    with ("cancel" +:+ String "_" ("payment" +:+ String "_" invoice_id)).
  rewrite !split_app_sep; [done|..];
    intros Hin; cbn in Hin;
    repeat (apply elem_of_cons in Hin as [[=]|Hin]);
    by apply elem_of_nil in Hin.
Qed.

Lemma update_payment_status_absent {M : Type} (inv st : string) (db : DB M) :
  (∀ p, p ∈ payments db → invoice_id p ≠ inv) →
  (update_payment_status inv st db).1 = db.
Proof.
  destruct db as [us ps]. unfold update_payment_status. cbn [fst users payments].
  intros Hno. f_equal. induction ps as [|p ps IH]; [done|].
  cbn [map]. unfold status_differs at 1.
  rewrite bool_decide_eq_false_2.
  - f_equal. apply IH. intros q Hq. apply Hno. by right.
  - intros [Hi _]. revert Hi. apply Hno. by left.
Qed.

(** X20.  The cancel button carries the invoice id after the prefix
    [cancel_payment_], and [cancel_payment] takes the third part of that
    text split at underscores.  So the handler never raises on a button
    of the keyboard, and the invoice it marks cancelled is the id up to
    its first underscore: the whole id when it has none, only its first
    part otherwise (for an id like [cryptobot_0123456789ab] that is
    [cryptobot]), in which case the ledger is left as it was when no
    invoice has that first part as its id. *)
Theorem cancel_button_cancels_id_up_to_first_underscore {M : Type}
    (invoice : string) (db : DB M) :
  (∃ first others,
     split "_" invoice = first :: others ∧
     cancel_payment (cancel_button invoice) db
     = Some (update_payment_status first "cancelled" db).1) ∧
  ("_"%char ∉ String.list_ascii_of_string invoice →
   cancel_payment (cancel_button invoice) db
   = Some (update_payment_status invoice "cancelled" db).1) ∧
  (∀ a b, invoice = a +:+ "_" +:+ b →
          "_"%char ∉ String.list_ascii_of_string a →
          cancel_payment (cancel_button invoice) db
          = Some (update_payment_status a "cancelled" db).1 ∧
          ((∀ p, p ∈ payments db → invoice_id p ≠ a) →
           cancel_payment (cancel_button invoice) db = Some db)).
Proof.
  unfold cancel_payment. rewrite split_cancel_button. cbn [lookup list_lookup].
  split_and!.
  - destruct (split_nonempty "_" invoice) as (first & others & Hs).
    exists first, others. by rewrite Hs.
  - intros Hno. by rewrite split_no_sep.
  - intros a b -> Hno.
    change (a +:+ "_" +:+ b) with (a +:+ String "_" b).
    rewrite split_app_sep by done. cbn [lookup list_lookup]. split; [done|].
    intros Habsent. by rewrite update_payment_status_absent.
Qed.

Lemma cancel_button_cancels_id_up_to_first_underscore_witness :
  let p := Payment 7 "cryptobot" 100 5 105 "cryptobot_ab12" None None
                   "pending" None None 1000 1900 in
  ("_"%char ∉ String.list_ascii_of_string "cryptobot") ∧
  cancel_payment (cancel_button "cryptobot_ab12") (Db [Sample.alice] [p])
  = Some (Db [Sample.alice] [p]).
Proof.
  intros p.
  assert ("_"%char ∉ String.list_ascii_of_string "cryptobot") as Hno.
  { intros Hin. cbn in Hin.
    repeat (apply elem_of_cons in Hin as [[=]|Hin]).
    by apply elem_of_nil in Hin. }
  split; [exact Hno|].
  destruct (cancel_button_cancels_id_up_to_first_underscore
              "cryptobot_ab12" (Db [Sample.alice] [p])) as (_ & _ & Hpart).
  apply (Hpart "cryptobot" "ab12" eq_refl Hno).
  intros q Hq. apply list_elem_of_singleton in Hq as ->. discriminate.
Defined.

(** ** Enabled gateways *)

Import Main.

Lemma enabled_check_payment_systems (config : credentials) (m : string) :
  enabled (check_payment_systems config) m = true ↔
  (m = "lolz" ∧ truthy_str (lolz_api_key config)
                && truthy_str (lolz_user_id config) = true) ∨
  (m = "cryptobot" ∧ truthy_str (cryptobot_api_key config) = true) ∨
  (m = "xrocet" ∧ truthy_str (xrocet_api_key config) = true) ∨
  (m = "crystalpay" ∧ truthy_str (crystalpay_login config)
                      && truthy_str (crystalpay_secret config) = true).
Proof.
  unfold enabled, check_payment_systems, getitem.
  destruct (truthy_str (lolz_api_key config)
            && truthy_str (lolz_user_id config)),
           (truthy_str (cryptobot_api_key config)),
           (truthy_str (xrocet_api_key config)),
           (truthy_str (crystalpay_login config)
            && truthy_str (crystalpay_secret config));
    cbn [app find fst]; repeat case_bool_decide; subst; cbn;
    intuition congruence.
Qed.

Lemma cycle_events_of_enabled {M : Type} `{Money M} (h : handlers)
    (enabled_systems : string → bool) (now_at : payment M → Z)
    (l : list (payment M)) (acc : DB M * list (event M)) (e : event M) :
  e ∈ (foldl (λ acc payment,
                if enabled_systems (payment_method payment) then
                  let '(db', events) :=
                    process_single_payment h (now_at payment) payment acc.1 in
                  (db', acc.2 ++ events)
                else acc) acc l).2 →
  e ∈ acc.2 ∨
  ∃ p db', p ∈ l ∧ enabled_systems (payment_method p) = true ∧
           e ∈ (process_single_payment h (now_at p) p db').2.
Proof.
  revert acc. induction l as [|p l IH]; intros acc Hin; [by left|].
  cbn [foldl] in Hin. apply IH in Hin as [Hin|(q & db' & Hq & Hen & Hin)].
  - destruct (enabled_systems (payment_method p)) eqn:Hen; [|by left].
    destruct (process_single_payment h (now_at p) p acc.1) as [db' ev] eqn:Hs.
    cbn [snd] in Hin. apply elem_of_app in Hin as [Hin|Hin]; [by left|].
    right. exists p, acc.1. rewrite Hs. split_and!; [by left|done|done].
  - right. exists q, db'. split_and!; [by right|done|done].
Qed.

(** X21.  With the enabled systems that [check_payment_systems] derives
    from the configuration, everything a cycle does (each status check and
    each notification) comes from the step of a listed payment whose
    gateway has its credentials set: both the key and the user id for
    lolz, the key for cryptobot and xrocet, both login and secret for
    crystalpay.  Payments of any other method, and of a gateway whose
    credentials are missing or empty, are neither checked nor expired. *)
Theorem cycle_touches_only_configured_gateways {M : Type} `{Money M}
    (config : credentials) (h : handlers) (now_db : Z)
    (now_at : payment M → Z) (db : DB M) (e : event M) :
  e ∈ (check_pending_payments h (enabled (check_payment_systems config))
                              now_db now_at db).2 →
  ∃ p db',
    p ∈ get_pending_payments now_db db ∧
    e ∈ (process_single_payment h (now_at p) p db').2 ∧
    ((payment_method p = "lolz"
      ∧ truthy_str (lolz_api_key config)
        && truthy_str (lolz_user_id config) = true) ∨
     (payment_method p = "cryptobot"
      ∧ truthy_str (cryptobot_api_key config) = true) ∨
     (payment_method p = "xrocet"
      ∧ truthy_str (xrocet_api_key config) = true) ∨
     (payment_method p = "crystalpay"
      ∧ truthy_str (crystalpay_login config)
        && truthy_str (crystalpay_secret config) = true)).
Proof.
  unfold check_pending_payments. intros Hin.
  apply cycle_events_of_enabled in Hin as [Hin|(p & db' & Hp & Hen & Hin)].
  - by apply elem_of_nil in Hin.
  - exists p, db'. split_and!; [done|done|].
    by apply enabled_check_payment_systems.
Qed.

Lemma cycle_touches_only_configured_gateways_witness :
  let config := Credentials (Some "key") (Some "17") None None None None in
  (Checked "lolz" "INV-1" (Success "paid") : event Z)
  ∈ (check_pending_payments Sample.all_paid
       (enabled (check_payment_systems config)) 1000 (λ _, 1500)
       (Sample.ledger "pending")).2 ∧
  ∃ p, p ∈ get_pending_payments 1000 (Sample.ledger "pending") ∧
       payment_method p = "lolz".
Proof.
  intros config.
  assert ((Checked "lolz" "INV-1" (Success "paid") : event Z)
          ∈ (check_pending_payments Sample.all_paid
               (enabled (check_payment_systems config)) 1000 (λ _, 1500)
               (Sample.ledger "pending")).2) as Hin.
  { vm_compute. apply elem_of_cons. by left. }
  split; [exact Hin|].
  destruct (cycle_touches_only_configured_gateways config Sample.all_paid
              1000 (λ _, 1500) (Sample.ledger "pending") _ Hin)
    as (p & db' & Hp & _ & Hconf).
  exists p. split; [exact Hp|].
  destruct Hconf as [[Hm _]|[[_ Hc]|[[_ Hc]|[_ Hc]]]];
    [exact Hm|discriminate Hc..].
Defined.


(** ** From the provider's response to the balance *)

Lemma lolz_paid_response (response : outcome) :
  lolz_check_payment_status response = Success "paid" →
  ∃ entries invoice_data,
    response = Response 200 (Some (JObj entries)) ∧
    lookup_entry "invoice" entries = Some invoice_data ∧
    get invoice_data "status" JNull = Some (JStr "paid").
Proof.
  unfold lolz_check_payment_status.
  repeat case_match; try done. intros _.
  match goal with H : (_ =? 200) = true |- _ => apply Z.eqb_eq in H as -> end.
  match goal with H : eq_str ?s "paid" = true |- _ =>
    destruct s; try done; simpl in H; apply bool_decide_eq_true in H as ->
  end.
  match goal with H : contains ?r _ = Some true |- _ =>
    destruct r; try done
  end.
  eauto.
Qed.

Lemma xrocet_paid_response (response : outcome) :
  xrocet_check_payment response = "paid" →
  ∃ result invoice_data payments,
    response = Response 200 (Some result) ∧
    subscript result "data" = Some invoice_data ∧
    get invoice_data "payments" (JArr []) = Some payments ∧
    truthy payments = true.
Proof.
  unfold xrocet_check_payment.
  repeat case_match; try done. intros _.
  match goal with H : (_ =? 200) = true |- _ => apply Z.eqb_eq in H as -> end.
  eauto 10.
Qed.

Lemma crystalpay_paid_response (response : outcome) :
  crystalpay_check_payment_status response = Success "paid" →
  ∃ result, response = Response 200 (Some result) ∧
            get result "state" (JStr "notpayed") = Some (JStr "payed").
Proof.
  unfold crystalpay_check_payment_status.
  repeat case_match; try done. intros _.
  match goal with H : (_ =? 200) = true |- _ => apply Z.eqb_eq in H as -> end.
  match goal with H : eq_str ?s "payed" = true |- _ =>
    destruct s; try done; simpl in H; apply bool_decide_eq_true in H as ->
  end.
  eauto.
Qed.

Section CreditFacts.
Context {M : Type} `{Money M}.
Implicit Types (db : DB M) (p q : payment M) (h : handlers).

Lemma step_users_or_success h now p db :
  users (process_single_payment h now p db).1 = users db ∨
  ∃ uid amt,
    NotifiedSuccess uid amt (invoice_id p)
    ∈ (process_single_payment h now p db).2.
Proof.
  destruct (decide (expires_at p < now)) as [Hexp|Hexp].
  - left. by rewrite process_single_payment_expired.
  - rewrite process_single_payment_unexpired by done.
    destruct (check_status _ _ _) as [[st|err]|]; [|by left..].
    case_bool_decide; [|by left].
    destruct (find (is_pending (invoice_id p)) (payments db)) as [pp|] eqn:Hf.
    + rewrite (process_pending _ _ _ Hf). right.
      exists (user_id pp), (amount pp). cbn [snd].
      apply elem_of_cons. right. apply elem_of_cons. by left.
    + rewrite (process_not_pending _ _ Hf). by left.
Qed.

Lemma step_success_needs_paid h now p db uid amt inv :
  NotifiedSuccess uid amt inv ∈ (process_single_payment h now p db).2 →
  inv = invoice_id p ∧ ¬ expires_at p < now ∧
  check_status h (payment_method p) (correlation_key p)
  = Some (Success "paid").
Proof.
  destruct (decide (expires_at p < now)) as [Hexp|Hexp].
  - rewrite process_single_payment_expired by done. cbn [snd].
    destruct (update_payment_status _ _ _).2; intros Hin.
    + by apply list_elem_of_singleton in Hin.
    + by apply elem_of_nil in Hin.
  - rewrite process_single_payment_unexpired by done.
    destruct (check_status _ _ _) as [[st|err]|].
    + case_bool_decide as Hst.
      * subst st.
        destruct (process_successful_payment _ _) as [db' [pp|]];
          cbn [snd]; intros Hin.
        -- apply elem_of_cons in Hin as [[=]|Hin].
           apply elem_of_cons in Hin as [[= -> -> ->]|Hin]; [done|].
           apply elem_of_cons in Hin as [[=]|Hin].
           by apply elem_of_nil in Hin.
        -- by apply list_elem_of_singleton in Hin.
      * cbn [snd]. intros Hin. by apply list_elem_of_singleton in Hin.
    + cbn [snd]. intros Hin. by apply list_elem_of_singleton in Hin.
    + cbn [snd]. intros Hin. by apply elem_of_nil in Hin.
Qed.

Lemma cycle_events_kept h (enabled_systems : string → bool)
    (now_at : payment M → Z) (l : list (payment M))
    (acc : DB M * list (event M)) (e : event M) :
  e ∈ acc.2 →
  e ∈ (foldl (λ acc payment,
                if enabled_systems (payment_method payment) then
                  let '(db', events) :=
                    process_single_payment h (now_at payment) payment acc.1 in
                  (db', acc.2 ++ events)
                else acc) acc l).2.
Proof.
  revert acc. induction l as [|p l IH]; intros acc Hin; [done|].
  cbn [foldl]. apply IH.
  destruct (enabled_systems (payment_method p)); [|done].
  destruct (process_single_payment h (now_at p) p acc.1) as [db' ev].
  cbn [snd]. apply elem_of_app. by left.
Qed.

Lemma cycle_users_or_success h (enabled_systems : string → bool)
    (now_at : payment M → Z) (l : list (payment M))
    (acc : DB M * list (event M)) :
  let final :=
    foldl (λ acc payment,
             if enabled_systems (payment_method payment) then
               let '(db', events) :=
                 process_single_payment h (now_at payment) payment acc.1 in
               (db', acc.2 ++ events)
             else acc) acc l in
  users final.1 = users acc.1 ∨
  ∃ uid amt inv, NotifiedSuccess uid amt inv ∈ final.2.
Proof.
  revert acc. induction l as [|p l IH]; intros acc; [by left|].
  cbn [foldl]. cbv zeta in IH.
  destruct (enabled_systems (payment_method p)) eqn:Hen; [|apply IH].
  pose proof (step_users_or_success h (now_at p) p acc.1) as Hstep.
  destruct (process_single_payment h (now_at p) p acc.1) as [db' ev].
  cbn [fst snd] in Hstep.
  destruct (IH (db', acc.2 ++ ev)) as [Hu|Hs]; [|by right].
  destruct Hstep as [Hsame|(uid & amt & Hin)].
  - left. cbn [fst] in Hu. by rewrite Hu.
  - right. exists uid, amt, (invoice_id p).
    apply cycle_events_kept. cbn [snd]. apply elem_of_app. by right.
Qed.
End CreditFacts.

(** X22.  Balances move only against a provider's statement that the
    invoice is paid.  Over the adapters of the code, a cycle leaves every
    user row as it was unless it sends a success notification, and each
    success notification belongs to a listed payment of an enabled gateway
    that had not expired when processed and whose provider, asked about
    the payment's correlation key, answered with status 200 and a body
    that says paid: an [invoice] whose status is [paid] for Lolz, a
    non-empty list of payments for xRocket, the state [payed] for
    CrystalPay (CryptoBot's handler is taken as it answers). *)
Theorem balances_move_only_on_a_paid_response {M : Type} `{Money M}
    (net : network) (cryptobot : string → status_result)
    (enabled_systems : string → bool) (now_db : Z) (now_at : payment M → Z)
    (db : DB M) :
  let cycle :=
    check_pending_payments (handlers_on net cryptobot) enabled_systems
                           now_db now_at db in
  (users cycle.1 = users db
   ∨ ∃ uid amt inv, NotifiedSuccess uid amt inv ∈ cycle.2) ∧
  (∀ uid amt inv,
     NotifiedSuccess uid amt inv ∈ cycle.2 →
     ∃ p, p ∈ get_pending_payments now_db db ∧
          invoice_id p = inv ∧
          enabled_systems (payment_method p) = true ∧
          ¬ expires_at p < now_at p ∧
          ((payment_method p = "lolz" ∧
            ∃ entries invoice_data,
              lolz_invoice net (correlation_key p)
              = Response 200 (Some (JObj entries)) ∧
              lookup_entry "invoice" entries = Some invoice_data ∧
              get invoice_data "status" JNull = Some (JStr "paid")) ∨
           (payment_method p = "cryptobot" ∧
            cryptobot (correlation_key p) = Success "paid") ∨
           (payment_method p = "xrocet" ∧
            ∃ result invoice_data payments,
              xrocet_invoice net (correlation_key p)
              = Response 200 (Some result) ∧
              subscript result "data" = Some invoice_data ∧
              get invoice_data "payments" (JArr []) = Some payments ∧
              truthy payments = true) ∨
           (payment_method p = "crystalpay" ∧
            ∃ result,
              crystalpay_info net (correlation_key p)
              = Response 200 (Some result) ∧
              get result "state" (JStr "notpayed")
              = Some (JStr "payed")))).
Proof.
  intros cycle. split.
  - apply (cycle_users_or_success (handlers_on net cryptobot) enabled_systems
             now_at (get_pending_payments now_db db) (db, [])).
  - intros uid amt inv Hin. subst cycle. unfold check_pending_payments in Hin.
    apply cycle_events_of_enabled in Hin as [Hin|(p & db' & Hp & Hen & Hin)];
      [by apply elem_of_nil in Hin|].
    apply step_success_needs_paid in Hin as (-> & Hexp & Hpaid).
    exists p. split_and!; [done..|].
    unfold check_status, handlers_on in Hpaid. cbn [lolz Gateway.cryptobot
      xrocet crystalpay] in Hpaid.
    destruct (decide (payment_method p = "lolz")) as [Hm|Hm1].
    { rewrite (bool_decide_eq_true_2 _ Hm) in Hpaid. injection Hpaid as Hpaid.
      left. split; [done|]. by apply lolz_paid_response. }
    rewrite (bool_decide_eq_false_2 _ Hm1) in Hpaid.
    destruct (decide (payment_method p = "cryptobot")) as [Hm|Hm2].
    { rewrite (bool_decide_eq_true_2 _ Hm) in Hpaid. injection Hpaid as Hpaid.
      right. left. by split. }
    rewrite (bool_decide_eq_false_2 _ Hm2) in Hpaid.
    destruct (decide (payment_method p = "xrocet")) as [Hm|Hm3].
    { rewrite (bool_decide_eq_true_2 _ Hm) in Hpaid.
      injection Hpaid as Hpaid.
      right. right. left. split; [done|]. by apply xrocet_paid_response. }
    rewrite (bool_decide_eq_false_2 _ Hm3) in Hpaid.
    destruct (decide (payment_method p = "crystalpay")) as [Hm|Hm4].
    { rewrite (bool_decide_eq_true_2 _ Hm) in Hpaid. injection Hpaid as Hpaid.
      right. right. right. split; [done|].
      by apply crystalpay_paid_response. }
    by rewrite (bool_decide_eq_false_2 _ Hm4) in Hpaid.
Qed.

Lemma balances_move_only_on_a_paid_response_witness :
  let paid := Response 200 (Some (JObj [("invoice",
                                         JObj [("status", JStr "paid")])])) in
  let net := Network (λ _, paid) (λ _, Raised) (λ _, Raised) in
  let cycle :=
    check_pending_payments (handlers_on net (λ _, Failure ConnectionError))
                           (λ _, true) 1000 (λ _, 1500)
                           (Sample.ledger "pending") in
  (NotifiedSuccess 7 100 "INV-1" : event Z) ∈ cycle.2 ∧
  ∃ p, p ∈ get_pending_payments 1000 (Sample.ledger "pending") ∧
       invoice_id p = "INV-1".
Proof.
  intros paid net cycle.
  assert ((NotifiedSuccess 7 100 "INV-1" : event Z) ∈ cycle.2) as Hin.
  { vm_compute. apply elem_of_cons. right. apply elem_of_cons. by left. }
  split; [exact Hin|].
  destruct (proj2 (balances_move_only_on_a_paid_response net
                     (λ _, Failure ConnectionError) (λ _, true) 1000
                     (λ _, 1500) (Sample.ledger "pending"))
                  7 100 "INV-1" Hin) as (p & Hp & Hinv & _).
  by exists p.
Defined.
